(** * Interac e-Transfer email parser (src/Parser.js): model and properties

    The parser is a class of static methods over JavaScript strings.  The
    model keeps the data of the source:

    - a string is the list of its UTF-16 code units;
    - indices are integers, with [-1] for "not found", as [indexOf] and
      [search] return them;
    - [null]/[undefined] are [None];
    - a method that can raise returns a [completion];
    - the amount is a binary64 number ([spec_float] of the standard
      library, with the rounding of [binary_round_aux]).

    The case mappings of the runtime ([toLowerCase], [toUpperCase]) and the
    decimal rendering of a number are taken as parameters of the model:
    every property below holds for whatever these builtins compute. *)

From Stdlib Require Import String Ascii.
From Stdlib Require Import List ZArith NArith Bool Lia.
From Stdlib Require Import Floats.SpecFloat.
Import ListNotations.

Local Open Scope Z_scope.

(* ================================================================== *)
(** ** Strings of the runtime *)

Definition codeunit := N.
Definition jsstring := list codeunit.

(** A literal of the source, written with ASCII characters only. *)
Definition lit (s : string) : jsstring :=
  map N_of_ascii (list_ascii_of_string s).

Fixpoint jsstring_eqb (a b : jsstring) : bool :=
  match a, b with
  | [], [] => true
  | x :: a', y :: b' => N.eqb x y && jsstring_eqb a' b'
  | _, _ => false
  end.

Definition len (s : jsstring) : Z := Z.of_nat (length s).

(** [WhiteSpace] and [LineTerminator] code points of ECMAScript, the set
    removed by [String.prototype.trim] and skipped by [parseFloat]. *)
Definition isWhiteSpace (c : codeunit) : bool :=
  (existsb (N.eqb c)
     [9; 10; 11; 12; 13; 32; 160; 5760; 8232; 8233; 8239; 8287; 12288; 65279]
   || (N.leb 8192 c && N.leb c 8202))%N%bool.

Fixpoint dropWhile {A : Type} (p : A -> bool) (l : list A) : list A :=
  match l with
  | [] => []
  | x :: l' => if p x then dropWhile p l' else l
  end.

Fixpoint takeWhile {A : Type} (p : A -> bool) (l : list A) : list A :=
  match l with
  | [] => []
  | x :: l' => if p x then x :: takeWhile p l' else []
  end.

Definition trimStart (s : jsstring) : jsstring := dropWhile isWhiteSpace s.
Definition trimEnd (s : jsstring) : jsstring :=
  rev (dropWhile isWhiteSpace (rev s)).
Definition trim (s : jsstring) : jsstring := trimEnd (trimStart s).

(** [s.split(sep)] for a separator of one code unit. *)
Fixpoint split (sep : codeunit) (s : jsstring) : list jsstring :=
  match s with
  | [] => [[]]
  | c :: s' =>
      if N.eqb c sep then [] :: split sep s'
      else match split sep s' with
           | [] => [[c]]
           | l :: ls => (c :: l) :: ls
           end
  end.

(** [lines.join(sep)]. *)
Fixpoint join (sep : jsstring) (l : list jsstring) : jsstring :=
  match l with
  | [] => []
  | [x] => x
  | x :: l' => x ++ sep ++ join sep l'
  end.

(** [s.startsWith(p)]. *)
Fixpoint startsWith (p s : jsstring) : bool :=
  match p, s with
  | [], _ => true
  | x :: p', y :: s' => N.eqb x y && startsWith p' s'
  | _ :: _, [] => false
  end.

(** First position, counted from [i], at which [needle] occurs in [s]. *)
Fixpoint indexOf_from (needle s : jsstring) (i : Z) : Z :=
  match s with
  | [] => if startsWith needle [] then i else -1
  | _ :: s' => if startsWith needle s then i else indexOf_from needle s' (i + 1)
  end.

Definition clamp (i n : Z) : Z := Z.min (Z.max i 0) n.

(** [s.indexOf(needle, position)]: the position is clamped to the string. *)
Definition indexOf (needle s : jsstring) (position : Z) : Z :=
  let start := clamp position (len s) in
  indexOf_from needle (skipn (Z.to_nat start) s) start.

(** [s.substring(start, end)]: both bounds clamped, swapped when reversed. *)
Definition substring (s : jsstring) (start end_ : Z) : jsstring :=
  let a := clamp start (len s) in
  let b := clamp end_ (len s) in
  let from := Z.min a b in
  let to := Z.max a b in
  firstn (Z.to_nat (to - from)) (skipn (Z.to_nat from) s).

Definition isDigit (c : codeunit) : bool := (N.leb 48 c && N.leb c 57)%N.

Fixpoint search_from (p : codeunit -> bool) (s : jsstring) (i : Z) : Z :=
  match s with
  | [] => -1
  | c :: s' => if p c then i else search_from p s' (i + 1)
  end.

(** [s.search(/\d/)]. *)
Definition search_digit (s : jsstring) : Z := search_from isDigit s 0.

(** [s.replace(/c/g, by)] for a literal code unit [c] and a replacement
    without [$] patterns. *)
Definition replaceAll (c : codeunit) (by_ : jsstring) (s : jsstring) : jsstring :=
  flat_map (fun x => if N.eqb x c then by_ else [x]) s.

(* ================================================================== *)
(** ** Numbers of the runtime *)

Definition number := spec_float.

Definition prec : Z := 53.
Definition emax : Z := 1024.

Definition NaN : number := S754_nan.
Definition Infinity : number := S754_infinity false.

(** [Number.isNaN]. *)
Definition Number_isNaN (x : number) : bool :=
  match x with S754_nan => true | _ => false end.

(** [Number.isFinite]. *)
Definition Number_isFinite (x : number) : bool :=
  match x with S754_zero _ | S754_finite _ _ _ => true | _ => false end.

Definition digitValue (c : codeunit) : Z := Z.of_N c - 48.

(** Mathematical value of a run of decimal digits. *)
Definition digitsValue (ds : jsstring) : Z :=
  fold_left (fun acc c => 10 * acc + digitValue c) ds 0.

(** The binary64 value nearest to [m * 10^e], ties to even, with the sign
    [s]; overflow gives an infinity and underflow a signed zero.  (Past
    20 significant digits ECMAScript lets an implementation round the
    digits first; the exact rounding modelled here is what V8 does.) *)
Definition roundDecimal (s : bool) (m : Z) (e : Z) : number :=
  match m with
  | Zpos p =>
      match e with
      | Zneg k =>
          SFdiv prec emax (S754_finite s p 0)
                (S754_finite false (Pos.pow 10 k) 0)
      | _ => binary_normalize prec emax (if s then - (m * 10 ^ e) else m * 10 ^ e) 0 s
      end
  | _ => S754_zero s
  end.

Definition span {A : Type} (p : A -> bool) (l : list A) : list A * list A :=
  (takeWhile p l, dropWhile p l).

(** Optional [ExponentPart]: [e] or [E], an optional sign and at least one
    digit; anything shorter is not part of the literal. *)
Definition exponentPart (s : jsstring) : Z :=
  match s with
  | c :: s' =>
      if (N.eqb c 101 || N.eqb c 69)%bool then
        let '(neg, s'') :=
          match s' with
          | d :: t => if N.eqb d 45 then (true, t)
                      else if N.eqb d 43 then (false, t) else (false, s')
          | [] => (false, s')
          end in
        let ds := takeWhile isDigit s'' in
        match ds with
        | [] => 0
        | _ => if neg then - digitsValue ds else digitsValue ds
        end
      else 0
  | [] => 0
  end.

(** [StrUnsignedDecimalLiteral]: the longest prefix of [s] that is
    [Infinity], or digits with an optional fraction and exponent. *)
Definition unsignedDecimal (neg : bool) (s : jsstring) : number :=
  if startsWith (lit "Infinity") s then S754_infinity neg
  else
    let '(ip, r1) := span isDigit s in
    match r1 with
    | 46%N :: r1' =>
        let '(fp, r2) := span isDigit r1' in
        match ip, fp with
        | [], [] => NaN
        | _, _ =>
            roundDecimal neg (digitsValue (ip ++ fp))
                         (exponentPart r2 - len fp)
        end
    | _ =>
        match ip with
        | [] => NaN
        | _ => roundDecimal neg (digitsValue ip) (exponentPart r1)
        end
    end.

(** [Number.parseFloat(s)]: leading white space is skipped, then the
    longest prefix that is a [StrDecimalLiteral] is converted; [NaN] when
    there is none. *)
Definition parseFloat (s : jsstring) : number :=
  match trimStart s with
  | 45%N :: r => unsignedDecimal true r
  | 43%N :: r => unsignedDecimal false r
  | r => unsignedDecimal false r
  end.

(* ================================================================== *)
(** ** Completions *)

Inductive exception : Type := TypeError.

Inductive completion (A : Type) : Type :=
| Return (a : A)
| Throw (e : exception).
Arguments Return {A} a.
Arguments Throw {A} e.

Definition bind {A B : Type} (c : completion A) (k : A -> completion B)
  : completion B :=
  match c with
  | Return a => k a
  | Throw e => Throw e
  end.

Notation "x <- c ;; k" := (bind c (fun x => k))
  (at level 61, c at next level, right associativity).

(* ================================================================== *)
(** ** Data of the parser *)

(** The languages of [Tokens], in the order in which [for ... in]
    enumerates its keys. *)
Inductive Language : Type := en | fr.

Definition Language_eqb (a b : Language) : bool :=
  match a, b with
  | en, en | fr, fr => true
  | _, _ => false
  end.

Inductive Token : Type :=
| body_greetings | message | reference | subject_start | automatic_deposit | sent.

(** The constant [Tokens] at the end of the file. *)
Definition Tokens (language : Language) (token : Token) : jsstring :=
  match language, token with
  | en, body_greetings => lit "hi"
  | en, message => lit "message"
  | en, reference => lit "reference"
  | en, subject_start => lit "interac e-transfer"
  | en, automatic_deposit => lit "automatically deposited"
  | en, sent => lit "has sent"
  | fr, body_greetings => lit "bonjour"
  | fr, message => lit "message"
  | fr, reference => lit "r" ++ [233%N] ++ lit "f" ++ [233%N] ++ lit "rence"
  | fr, subject_start => lit "virement interac"
  | fr, automatic_deposit => lit "automatiquement"
  | fr, sent => lit "vous"
  end.

Definition languages : list Language := [en; fr].

(** Values that are only passed through. *)
Inductive jsvalue : Type :=
| Undefined
| Null
| Str (s : jsstring).

(** An entry of an address list of MailParser. *)
Record Mailbox : Type := { name : jsvalue; address : jsvalue }.

(** An address header: [value] is [None] when it is not an array. *)
Record AddressObject : Type := { value : option (list Mailbox) }.

Inductive RecipientType : Type := to | from | replyTo.

Module Email.
Record t : Type := {
  to : option AddressObject;
  from : option AddressObject;
  replyTo : option AddressObject;
  text : jsstring;
  subject : jsstring;
  uid : jsvalue;
  server_id : jsvalue;
  messageId : jsvalue;
  date : jsvalue
}.
End Email.

(** [email[type]]. *)
Definition Email_get (email : Email.t) (type : RecipientType)
  : option AddressObject :=
  match type with
  | to => Email.to email
  | from => Email.from email
  | replyTo => Email.replyTo email
  end.

(** A message as MailParser hands it over, where the subject or the
    plain text can be missing ([None] for [undefined]). *)
Module Message.
Record t : Type := {
  to : option AddressObject;
  from : option AddressObject;
  replyTo : option AddressObject;
  text : option jsstring;
  subject : option jsstring;
  uid : jsvalue;
  server_id : jsvalue;
  messageId : jsvalue;
  date : jsvalue
}.

(** The message with its text and its subject, once both are strings. *)
Definition toEmail (m : t) (bodyText subjectText : jsstring) : Email.t :=
  {| Email.to := to m; Email.from := from m; Email.replyTo := replyTo m;
     Email.text := bodyText; Email.subject := subjectText;
     Email.uid := uid m; Email.server_id := server_id m;
     Email.messageId := messageId m; Email.date := date m |}.
End Message.

Module Recipient.
Record t : Type := { name : jsvalue; email : jsvalue }.
End Recipient.

Module Body.
Record t : Type := {
  text : jsstring;
  language : option Language;
  amount : option number;
  currency : option jsstring;
  is_auto_deposit : bool;
  message : option jsstring;
  reference : option jsstring;
  is_valid_amount : bool;
  from_name : jsstring
}.
End Body.

Module Subject.
Record t : Type := {
  text : jsstring;
  language : option Language;
  is_email_transfer : bool;
  is_auto_deposit : bool
}.
End Subject.

(** [new Date(v)]. *)
Inductive Date : Type := newDate (v : jsvalue).

Module Result.
Record t : Type := {
  version : jsstring;
  uid : jsvalue;
  serverId : jsvalue;
  messageId : jsvalue;
  date : Date;
  toName : jsvalue;
  toEmail : jsvalue;
  fromName : jsvalue;
  fromEmail : jsvalue;
  replyToName : jsvalue;
  replyToEmail : jsvalue;
  language : option Language;
  amount : option number;
  currency : option jsstring;
  reference : option jsstring;
  isAutoDeposit : bool;
  userMessage : option jsstring;
  isEmailTransfer : bool;
  body : jsstring;
  subject : jsstring;
  errors : option (list jsstring)
}.
End Result.

Definition version : jsstring := lit "2.0".

(** Truth value of a string or [null]: only a non-empty string is truthy. *)
Definition truthy (v : option jsstring) : bool :=
  match v with
  | Some (_ :: _) => true
  | _ => false
  end.

(** [a === b] on values that are a language tag or [null]. *)
Definition language_eqb (a b : option Language) : bool :=
  match a, b with
  | None, None => true
  | Some x, Some y => Language_eqb x y
  | _, _ => false
  end.

(** The four messages of the validation. *)
Definition errSubject : jsstring :=
  lit "Subject does not start with 'INTERAC e-Transfer'.".
Definition errAmountPrefix : jsstring := lit "Amount is not a valid number: ".
Definition errLanguage : jsstring :=
  lit "Subject and body language does not match.".
Definition errAutoDeposit : jsstring :=
  lit "Subject and body auto-deposit does not match.".

(** [errors.push(x)]. *)
Definition push (errors : list jsstring) (x : jsstring) : list jsstring :=
  errors ++ [x].

(** Case mappings that agree with the runtime on ASCII strings; they are
    the instance at which the closed examples at the end are run. *)
Definition asciiLower (c : codeunit) : codeunit :=
  (if N.leb 65 c && N.leb c 90 then c + 32 else c)%N.
Definition asciiUpper (c : codeunit) : codeunit :=
  (if N.leb 97 c && N.leb c 122 then c - 32 else c)%N.
Definition toLowerCase_ascii (s : jsstring) : jsstring := map asciiLower s.
Definition toUpperCase_ascii (s : jsstring) : jsstring := map asciiUpper s.

(** Rendering of the numbers that need no digit generation.  It is the
    instance of [Number::toString] for the closed examples: the parser
    only ever renders [null] and [NaN], which the model renders itself
    ([parse_rendering_irrelevant]). *)
Definition NumberToString_nondigit (x : number) : jsstring :=
  match x with
  | S754_infinity false => lit "Infinity"
  | S754_infinity true => lit "-Infinity"
  | S754_zero _ => lit "0"
  | _ => []
  end.

(* ================================================================== *)
(** ** Sample messages *)

(** A message with the given subject and plain-text body and no other
    header. *)
Definition emailOf (subject text : jsstring) : Email.t :=
  {| Email.to := None; Email.from := None; Email.replyTo := None;
     Email.text := text; Email.subject := subject;
     Email.uid := Undefined; Email.server_id := Undefined;
     Email.messageId := Undefined; Email.date := Undefined |}.

Definition LF : jsstring := [10%N].

(** The message of the README. *)
Definition subjectA : jsstring :=
  lit "INTERAC e-Transfer: A money transfer from SAMPLE TENANT has been automatically deposited.".
Definition lineA : jsstring :=
  lit "SAMPLE TENANT has sent you a money transfer for the amount of $5.25 (CAD) and the money has been automatically deposited into your bank account at Scotiabank.".
Definition bodyA : jsstring :=
  lit "Hi SAMPLE LANDLORD," ++ LF ++ lineA ++ LF
  ++ lit "Message: ((UON5-CHCZ-22RH-F0N6))" ++ LF
  ++ lit "Reference Number : CAvjMTys" ++ LF.

(** A body of one line. *)
Definition bodyOneLine : jsstring := lit "Hi".

(** A body of one line without [$]. *)
Definition bodyNoAmountOneLine : jsstring :=
  lit "Your transfer has been cancelled.".

(** A two-letter code between the parentheses. *)
Definition lineCA : jsstring :=
  lit "SAMPLE TENANT has sent you $5.25 (CA) and the money has been deposited.".
Definition bodyCA : jsstring := lit "Hi SAMPLE LANDLORD," ++ LF ++ lineCA.

(** An amount that is not finite. *)
Definition lineInfinity : jsstring :=
  lit "SAMPLE TENANT has sent you $Infinity (CAD) and the money has been deposited.".
Definition bodyInfinity : jsstring :=
  lit "Hi SAMPLE LANDLORD," ++ LF ++ lineInfinity.

(** The amount at the end of its line, and a [$] with nothing to read. *)
Definition lineAmountLast : jsstring := lit "Amount: $5.25".
Definition bodyAmountLast : jsstring :=
  lit "Hi SAMPLE LANDLORD," ++ LF ++ lit "SAMPLE TENANT has sent you money."
  ++ LF ++ lineAmountLast.
Definition lineNoDigit : jsstring := lit "Amount in $ to follow".
Definition bodyNoDigit : jsstring :=
  lit "Hi SAMPLE LANDLORD," ++ LF ++ lit "SAMPLE TENANT has sent you money."
  ++ LF ++ lineNoDigit.

(** A French message, the amount before the [$]. *)
Definition lineFr : jsstring :=
  lit "SAMPLE TENANT vous a envoye 5,25 $ (CAD) et les fonds ont ete deposes automatiquement.".
Definition bodyFr : jsstring := lit "Bonjour SAMPLE LANDLORD," ++ LF ++ lineFr.
Definition subjectFr : jsstring := lit "Virement INTERAC : SAMPLE TENANT".

(** A body without any line containing [$]. *)
Definition bodyNoAmount : jsstring :=
  lit "Hi SAMPLE LANDLORD," ++ LF ++ lit "SAMPLE TENANT has sent you a message.".

(** A French and an English reference line, the French one first. *)
Definition lineReferenceFr : jsstring :=
  lit "R" ++ [233%N] ++ lit "f" ++ [233%N] ++ lit "rence : FR1".
Definition lineReferenceEn : jsstring := lit "Reference Number : CAvjMTys".

(** The French message with its subject. *)
Definition emailFr : Email.t := emailOf subjectFr bodyFr.

(** A French message whose amount line ends with the [$]. *)
Definition lineFrLast : jsstring :=
  lit "SAMPLE TENANT vous a envoye 5,25 $".
Definition bodyFrLast : jsstring :=
  lit "Bonjour SAMPLE LANDLORD," ++ LF ++ lineFrLast.

(** The README message as MailParser hands it over, and the same
    message without a Subject header. *)
Definition messageA : Message.t :=
  {| Message.to := None; Message.from := None; Message.replyTo := None;
     Message.text := Some bodyA; Message.subject := Some subjectA;
     Message.uid := Undefined; Message.server_id := Undefined;
     Message.messageId := Undefined; Message.date := Undefined |}.
Definition messageNoSubject : Message.t :=
  {| Message.to := None; Message.from := None; Message.replyTo := None;
     Message.text := Some bodyA; Message.subject := None;
     Message.uid := Undefined; Message.server_id := Undefined;
     Message.messageId := Undefined; Message.date := Undefined |}.

(** A message that is not a transfer, without amount. *)
Definition emailNoAmount : Email.t := emailOf (lit "Hello") bodyNoAmount.

(** The README message, and an English subject on the French body. *)
Definition emailA : Email.t := emailOf subjectA bodyA.
Definition emailMixed : Email.t := emailOf subjectA bodyFr.

(* ================================================================== *)
(** ** The parser *)

Section Parser.

(** [String.prototype.toLowerCase] and [String.prototype.toUpperCase]. *)
Variable toLowerCase : jsstring -> jsstring.
Variable toUpperCase : jsstring -> jsstring.
(** [Number::toString] on a number that is not [NaN]. *)
Variable NumberToString : number -> jsstring.

(** The value of [${amount}] in a template. *)
Definition ToString (amount : option number) : jsstring :=
  match amount with
  | None => lit "null"
  | Some x => if Number_isNaN x then lit "NaN" else NumberToString x
  end.

(** [isNaN(amount)]: [null] converts to [0]. *)
Definition isNaN (amount : option number) : bool :=
  match amount with
  | None => false
  | Some x => Number_isNaN x
  end.

Definition getRecipient (email : Email.t) (type : RecipientType)
  : Recipient.t :=
  let value :=
    match Email_get email type with
    | Some header =>
        match value header with
        | Some entries => nth_error entries 0
        | None => None
        end
    | None => None
    end in
  {| Recipient.name := match value with Some v => name v | None => Null end;
     Recipient.email := match value with Some v => address v | None => Null end |}.

Definition tokenExists (text : jsstring) (token : Token) : option Language :=
  find (fun language => negb (indexOf (Tokens language token) text 0 =? -1))
       languages.

Definition tokenStarts (text : jsstring) (token : Token) : option Language :=
  find (fun language => startsWith (Tokens language token) text) languages.

(** The inner loop of [tokenStartsLine]: the first line that starts with
    the token of one language. *)
Definition startsLine (lines : list jsstring) (langToken : jsstring)
  : option jsstring :=
  find (fun line => startsWith langToken (toLowerCase line)) lines.

Fixpoint tokenStartsLine_in (langs : list Language) (lines : list jsstring)
         (token : Token) : option jsstring :=
  match langs with
  | [] => None
  | language :: langs' =>
      match startsLine lines (Tokens language token) with
      | Some line => Some line
      | None => tokenStartsLine_in langs' lines token
      end
  end.

Definition tokenStartsLine (lines : list jsstring) (token : Token)
  : option jsstring :=
  tokenStartsLine_in languages lines token.

(** The loop of [readUpperCase]: the index at which it stops, started at
    [index] on the rest of the line. *)
Fixpoint upperCaseEnd (rest : jsstring) (index : Z) : Z :=
  match rest with
  | [] => index
  | char :: rest' =>
      if negb (jsstring_eqb [char] (toUpperCase [char])) then index
      else upperCaseEnd rest' (index + 1)
  end.

(** [line] is [None] for [undefined], whose [length] cannot be read. *)
Definition readUpperCase (line : option jsstring) : completion jsstring :=
  match line with
  | None => Throw TypeError
  | Some line =>
      let index := upperCaseEnd line 0 in
      Return (trim (substring line 0 (index - 1)))
  end.

Definition containsLine (lines : list jsstring) (token : jsstring)
  : option jsstring :=
  find (fun line => negb (indexOf token line 0 =? -1)) lines.

(** [readAfter(text, token)] with the default options ([trim: true]). *)
Definition readAfter (text token : jsstring) : option jsstring :=
  let index := indexOf token text 0 in
  if index =? -1 then None
  else Some (trim (substring text (index + len token) (len text))).

(** Lines 121-135 of [parseBody]: the amount read on the line of [$]. *)
Definition readAmount (line : jsstring) : option number :=
  let amountStart := indexOf (lit "$") line 0 in
  let amountEnd := indexOf (lit " ") line amountStart in
  let amount :=
    if negb (amountStart =? -1) && negb (amountEnd =? -1) then
      Some (parseFloat
              (replaceAll 44%N []
                 (trim (substring line (amountStart + 1) amountEnd))))
    else None in
  if isNaN amount then
    let digitStart := search_digit line in
    let digitEnd := indexOf (lit " ") line digitStart in
    if negb (digitStart =? -1) && negb (digitEnd =? -1) then
      Some (parseFloat
              (replaceAll 44%N (lit ".")
                 (trim (substring line digitStart digitEnd))))
    else amount
  else amount.

(** Line 138: [typeof amount === "number" && !Number.isNaN(amount)]. *)
Definition validAmount (amount : option number) : bool :=
  match amount with
  | Some x => negb (Number_isNaN x)
  | None => false
  end.

(** Lines 141-143 of [parseBody]: the currency read on the same line. *)
Definition readCurrency (line : jsstring) : option jsstring :=
  let currencyStart := indexOf (lit "(") line 0 in
  let currencyEnd := indexOf (lit ")") line currencyStart in
  if negb (currencyStart =? -1) && negb (currencyEnd =? -1)
     && (3 <=? currencyEnd - currencyStart)
  then Some (substring line (currencyStart + 1) currencyEnd)
  else None.

(** The separator ['\n']. *)
Definition newline : jsstring := [10%N].

(** Line 92: the lines of the body, trimmed, without the empty ones. *)
Definition normalize (bodyText : jsstring) : list jsstring :=
  filter (fun line => 0 <? len line) (map trim (split 10%N bodyText)).

Definition parseBody (bodyText : jsstring) : completion Body.t :=
  let lines := normalize bodyText in
  let text := join newline lines in
  let language := tokenStarts (toLowerCase text) body_greetings in
  let is_auto_deposit :=
    match tokenExists (toLowerCase text) automatic_deposit with
    | Some _ => true
    | None => false
    end in
  let fromLine := nth_error lines 1 in
  from_name <- readUpperCase fromLine ;;
  let messageLine := tokenStartsLine lines message in
  let message :=
    if truthy messageLine
    then match messageLine with
         | Some l => readAfter l (lit ":")
         | None => None
         end
    else None in
  let referenceLine := tokenStartsLine lines reference in
  let reference :=
    if truthy referenceLine
    then match referenceLine with
         | Some l => readAfter l (lit ":")
         | None => None
         end
    else None in
  let line := containsLine lines (lit "$") in
  match line with
  | Some (c :: l) =>
      let line := c :: l in
      let amount := readAmount line in
      Return {| Body.text := text;
                Body.language := language;
                Body.amount := amount;
                Body.currency := readCurrency line;
                Body.is_auto_deposit := is_auto_deposit;
                Body.message := message;
                Body.reference := reference;
                Body.is_valid_amount := validAmount amount;
                Body.from_name := from_name |}
  | _ =>
      Return {| Body.text := text;
                Body.language := language;
                Body.amount := None;
                Body.currency := None;
                Body.is_auto_deposit := is_auto_deposit;
                Body.message := message;
                Body.reference := reference;
                Body.is_valid_amount := false;
                Body.from_name := from_name |}
  end.

Definition parseSubject (text : jsstring) : Subject.t :=
  let lower := toLowerCase text in
  let language := tokenStarts lower subject_start in
  {| Subject.text := text;
     Subject.language := language;
     Subject.is_email_transfer :=
       match language with Some _ => true | None => false end;
     Subject.is_auto_deposit :=
       match tokenExists lower automatic_deposit with
       | Some _ => true
       | None => false
       end |}.

(** Lines 28-34 of [parse]: the validation. *)
Definition validate (subject : Subject.t) (body : Body.t) : list jsstring :=
  let errors := [] in
  let errors :=
    if negb (Subject.is_email_transfer subject)
    then push errors errSubject else errors in
  let errors :=
    if negb (Body.is_valid_amount body)
    then push errors (errAmountPrefix ++ ToString (Body.amount body))
    else errors in
  let errors :=
    if negb (language_eqb (Subject.language subject) (Body.language body))
    then push errors errLanguage else errors in
  let errors :=
    if negb (Bool.eqb (Subject.is_auto_deposit subject)
                      (Body.is_auto_deposit body))
    then push errors errAutoDeposit else errors in
  errors.

Definition parse (email : Email.t) : completion Result.t :=
  let to_ := getRecipient email to in
  let from_ := getRecipient email from in
  let replyTo_ := getRecipient email replyTo in
  body <- parseBody (Email.text email) ;;
  let subject := parseSubject (Email.subject email) in
  let errors := validate subject body in
  Return {|
      Result.version := version;
      Result.uid := Email.uid email;
      Result.serverId := Email.server_id email;
      Result.messageId := Email.messageId email;
      Result.date := newDate (Email.date email);
      Result.toName := Recipient.name to_;
      Result.toEmail := Recipient.email to_;
      Result.fromName := Recipient.name from_;
      Result.fromEmail := Recipient.email from_;
      Result.replyToName := Recipient.name replyTo_;
      Result.replyToEmail := Recipient.email replyTo_;
      Result.language :=
        match Body.language body with
        | Some l => Some l
        | None => Subject.language subject
        end;
      Result.amount := Body.amount body;
      Result.currency := Body.currency body;
      Result.reference := Body.reference body;
      Result.isAutoDeposit :=
        Body.is_auto_deposit body && Subject.is_auto_deposit subject;
      Result.userMessage := Body.message body;
      Result.isEmailTransfer :=
        Subject.is_email_transfer subject && Body.is_valid_amount body;
      Result.body := Body.text body;
      Result.subject := Subject.text subject;
      Result.errors :=
        if 0 <? Z.of_nat (length errors) then Some errors else None
    |}.


(* ---------------------------------------------------------------- *)
(** *** The same values in the words of the specification *)

(** What precedes the first [c], and what follows it. *)
Definition before (c : codeunit) (s : jsstring) : jsstring :=
  takeWhile (fun x => negb (N.eqb x c)) s.
Definition after (c : codeunit) (s : jsstring) : jsstring :=
  tl (dropWhile (fun x => negb (N.eqb x c)) s).
Definition has (c : codeunit) (s : jsstring) : bool := existsb (N.eqb c) s.

Definition dollar : codeunit := 36%N.
Definition space : codeunit := 32%N.
Definition comma : codeunit := 44%N.

(** Primary strategy: what stands between the [$] and the next space,
    trimmed, the commas removed, read as a number.  [None] when no
    space follows the [$]. *)
Definition primaryAmount (line : jsstring) : option number :=
  if has dollar line && has space (after dollar line) then
    Some (parseFloat
            (filter (fun x => negb (N.eqb x comma))
                    (trim (before space (after dollar line)))))
  else None.

(** The line from its first digit on. *)
Definition fromDigit (line : jsstring) : jsstring :=
  dropWhile (fun x => negb (isDigit x)) line.

(** Fallback strategy: what stands between the first digit (included)
    and the next space, trimmed, each comma turned into a point, read
    as a number.  [None] without a digit or without a space after it. *)
Definition fallbackAmount (line : jsstring) : option number :=
  if existsb isDigit line && has space (fromDigit line) then
    Some (parseFloat
            (map (fun x => if N.eqb x comma then 46%N else x)
                 (trim (before space (fromDigit line)))))
  else None.

(** The amount of a line: the primary value, replaced by the fallback
    value when it is not a number and the fallback applies. *)
Definition amountOfLine (line : jsstring) : option number :=
  match primaryAmount line with
  | Some p =>
      if Number_isNaN p then
        match fallbackAmount line with
        | Some f => Some f
        | None => Some p
        end
      else Some p
  | None => None
  end.

Definition lparen : codeunit := 40%N.
Definition rparen : codeunit := 41%N.

(** What stands strictly between the first [(] and the next [)]. *)
Definition parenthesized (line : jsstring) : jsstring :=
  before rparen (after lparen line).

(** The line that [parseBody] selects for the amount. *)
Definition amountLine (bodyText : jsstring) : option jsstring :=
  containsLine (normalize bodyText) (lit "$").

(** A character that is its own upper-cased form. *)
Definition ownUpperCase (c : codeunit) : bool :=
  jsstring_eqb [c] (toUpperCase [c]).

(** The sender name: the leading run of such characters, without its
    last character, without trailing white space. *)
Definition senderName (line : jsstring) : jsstring :=
  trimEnd (removelast (takeWhile ownUpperCase line)).

(** The languages detected in a message. *)
Definition bodyLanguage (email : Email.t) : option Language :=
  tokenStarts (toLowerCase (join newline (normalize (Email.text email))))
              body_greetings.
Definition subjectLanguage (email : Email.t) : option Language :=
  tokenStarts (toLowerCase (Email.subject email)) subject_start.

(** [text] contains [needle]. *)
Definition contains (needle text : jsstring) : bool :=
  negb (indexOf needle text 0 =? -1).

(** The automatic deposit as the body and the subject claim it: the
    phrase of some language occurs in the lower-cased text. *)
Definition bodyAutoDeposit (email : Email.t) : bool :=
  existsb (fun language =>
             contains (Tokens language automatic_deposit)
               (toLowerCase (join newline (normalize (Email.text email)))))
          languages.
Definition subjectAutoDeposit (email : Email.t) : bool :=
  existsb (fun language =>
             contains (Tokens language automatic_deposit)
               (toLowerCase (Email.subject email)))
          languages.

(** The subject is recognized as a transfer: it starts with the phrase
    of some language. *)
Definition subjectRecognized (email : Email.t) : bool :=
  existsb (fun language =>
             startsWith (Tokens language subject_start)
               (toLowerCase (Email.subject email)))
          languages.

(** The four messages in the order of the checks, for a given amount. *)
Definition allErrors (amount : option number) : list jsstring :=
  [errSubject; errAmountPrefix ++ ToString amount; errLanguage;
   errAutoDeposit].

(** [l] is [m] with some elements left out. *)
Inductive Subsequence {A : Type} : list A -> list A -> Prop :=
| Subsequence_nil : Subsequence [] []
| Subsequence_skip x l m : Subsequence l m -> Subsequence l (x :: m)
| Subsequence_keep x l m : Subsequence l m -> Subsequence (x :: l) (x :: m).

(** The errors of a record as a list. *)
Definition errorList (r : Result.t) : list jsstring :=
  match Result.errors r with
  | Some l => l
  | None => []
  end.

(** [needle] occurs in [text]. *)
Definition occurs (needle text : jsstring) : Prop :=
  exists pre post, text = pre ++ needle ++ post.

(** The lower-cased line starts with the token of the language. *)
Definition lineStarts (language : Language) (token : Token)
           (line : jsstring) : bool :=
  startsWith (Tokens language token) (toLowerCase line).

Definition colon : codeunit := 58%N.

(** [parse] on a message whose text or subject can be missing.  Line 92
    calls [split] on the text and line 160 calls [toLowerCase] on the
    subject: on [undefined] either call raises a [TypeError], the second
    one after [parseBody] has run. *)
Definition parseMessage (m : Message.t) : completion Result.t :=
  match Message.text m with
  | None => Throw TypeError
  | Some bodyText =>
      match Message.subject m with
      | None => _ <- parseBody bodyText ;; Throw TypeError
      | Some subjectText => parse (Message.toEmail m bodyText subjectText)
      end
  end.

(* ---------------------------------------------------------------- *)
(** *** Lists and strings *)

(** Arithmetic on lengths, once [len] is unfolded. *)
Ltac zlen := unfold len, jsstring, codeunit in *; cbn [length] in *; lia.

Lemma takeWhile_dropWhile {A : Type} (p : A -> bool) (l : list A) :
  takeWhile p l ++ dropWhile p l = l.
Proof.
  induction l as [|x l IH]; simpl; [reflexivity|].
  destruct (p x); simpl; [now rewrite IH | reflexivity].
Qed.

Lemma skipn_takeWhile {A : Type} (p : A -> bool) (l : list A) :
  skipn (length (takeWhile p l)) l = dropWhile p l.
Proof.
  induction l as [|x l IH]; simpl; [reflexivity|].
  destruct (p x); simpl; [exact IH | reflexivity].
Qed.

Lemma firstn_takeWhile {A : Type} (p : A -> bool) (l : list A) :
  firstn (length (takeWhile p l)) l = takeWhile p l.
Proof.
  induction l as [|x l IH]; simpl; [reflexivity|].
  destruct (p x); simpl; [now rewrite IH | reflexivity].
Qed.

Lemma length_takeWhile_le {A : Type} (p : A -> bool) (l : list A) :
  (length (takeWhile p l) <= length l)%nat.
Proof.
  induction l as [|x l IH]; simpl; [lia|].
  destruct (p x); simpl; lia.
Qed.

Lemma dropWhile_head {A : Type} (p : A -> bool) (l : list A) x r :
  dropWhile p l = x :: r -> p x = false.
Proof.
  induction l as [|y l IH]; simpl; [discriminate|].
  destruct (p y) eqn:E; [exact IH|].
  intros H; injection H as -> _; exact E.
Qed.

Lemma dropWhile_nil_existsb {A : Type} (p : A -> bool) (l : list A) :
  existsb p l = negb (match dropWhile (fun x => negb (p x)) l with
                      | [] => true
                      | _ => false
                      end).
Proof.
  induction l as [|x l IH]; simpl; [reflexivity|].
  destruct (p x); simpl; [reflexivity | exact IH].
Qed.

Lemma has_existsb (c : codeunit) (s : jsstring) :
  has c s = existsb (fun x => N.eqb x c) s.
Proof.
  unfold has. induction s as [|x s IH]; simpl; [reflexivity|].
  now rewrite IH, N.eqb_sym.
Qed.

(** A string that contains [c] splits around its first [c]. *)
Lemma has_split (c : codeunit) (s : jsstring) :
  has c s = true ->
  dropWhile (fun x => negb (N.eqb x c)) s = c :: after c s.
Proof.
  intros H. unfold after.
  rewrite has_existsb, dropWhile_nil_existsb in H.
  destruct (dropWhile (fun x => negb (N.eqb x c)) s) as [|y r] eqn:E;
    [discriminate|].
  apply dropWhile_head in E as Hy.
  apply negb_false_iff, N.eqb_eq in Hy. now subst.
Qed.

Lemma len_nonneg (s : jsstring) : 0 <= len s.
Proof. unfold len; lia. Qed.

Lemma len_app (a b : jsstring) : len (a ++ b) = len a + len b.
Proof. unfold len. rewrite length_app. lia. Qed.

Lemma startsWith_single (c : codeunit) (s : jsstring) :
  startsWith [c] s = match s with x :: _ => N.eqb x c | [] => false end.
Proof.
  destruct s as [|x s]; simpl; [reflexivity|].
  now rewrite andb_true_r, N.eqb_sym.
Qed.

(** [indexOf] of one code unit: the length of what precedes it. *)
Lemma indexOf_from_single (c : codeunit) (s : jsstring) (i : Z) :
  indexOf_from [c] s i = if has c s then i + len (before c s) else -1.
Proof.
  revert i. induction s as [|x s IH]; intros i.
  - simpl. reflexivity.
  - cbn [indexOf_from]. rewrite startsWith_single.
    unfold has, before in *. cbn [existsb takeWhile].
    rewrite (N.eqb_sym c x).
    destruct (N.eqb x c) eqn:E; cbn [negb orb].
    + unfold len; simpl. lia.
    + rewrite IH. destruct (existsb (N.eqb c) s); [|reflexivity].
      unfold len; cbn [length]. lia.
Qed.

Lemma clamp_id (i n : Z) : 0 <= i <= n -> clamp i n = i.
Proof. unfold clamp; lia. Qed.

Lemma indexOf_single (c : codeunit) (s : jsstring) (pos : Z) :
  0 <= pos <= len s ->
  indexOf [c] s pos =
    if has c (skipn (Z.to_nat pos) s)
    then pos + len (before c (skipn (Z.to_nat pos) s)) else -1.
Proof.
  intros H. unfold indexOf. rewrite clamp_id by exact H.
  apply indexOf_from_single.
Qed.

Lemma indexOf_single_0 (c : codeunit) (s : jsstring) :
  indexOf [c] s 0 = if has c s then len (before c s) else -1.
Proof.
  rewrite indexOf_single by (pose proof (len_nonneg s); lia).
  reflexivity.
Qed.

(** [substring] between ordered bounds inside the string. *)
Lemma substring_inside (s : jsstring) (a b : Z) :
  0 <= a <= b -> b <= len s ->
  substring s a b = firstn (Z.to_nat (b - a)) (skipn (Z.to_nat a) s).
Proof.
  intros H1 H2. unfold substring.
  rewrite !clamp_id by lia.
  now rewrite Z.min_l, Z.max_r by lia.
Qed.

Lemma firstn_len_before (c : codeunit) (s : jsstring) :
  firstn (Z.to_nat (len (before c s))) s = before c s.
Proof.
  unfold len, before. rewrite Nat2Z.id. apply firstn_takeWhile.
Qed.

Lemma search_from_spec (p : codeunit -> bool) (s : jsstring) (i : Z) :
  search_from p s i =
    if existsb p s then i + len (takeWhile (fun x => negb (p x)) s)
    else -1.
Proof.
  revert i. induction s as [|x s IH]; intros i; simpl; [reflexivity|].
  destruct (p x); simpl.
  - unfold len; simpl; lia.
  - rewrite IH. destruct (existsb p s); [|reflexivity].
    unfold len; cbn [length]. lia.
Qed.

Lemma replaceAll_remove (c : codeunit) (s : jsstring) :
  replaceAll c [] s = filter (fun x => negb (N.eqb x c)) s.
Proof.
  unfold replaceAll. induction s as [|x s IH]; simpl; [reflexivity|].
  rewrite IH. now destruct (N.eqb x c).
Qed.

Lemma replaceAll_one (c d : codeunit) (s : jsstring) :
  replaceAll c [d] s = map (fun x => if N.eqb x c then d else x) s.
Proof.
  unfold replaceAll. induction s as [|x s IH]; simpl; [reflexivity|].
  rewrite IH. now destruct (N.eqb x c).
Qed.

Lemma has_cons_other (c x : codeunit) (r : jsstring) :
  N.eqb x c = false -> has c (x :: r) = has c r.
Proof.
  intros H. unfold has. cbn [existsb]. now rewrite N.eqb_sym, H.
Qed.

Lemma before_cons_other (c x : codeunit) (r : jsstring) :
  N.eqb x c = false -> before c (x :: r) = x :: before c r.
Proof.
  intros H. unfold before. cbn [takeWhile]. now rewrite H.
Qed.

(** The next [c] after a position that does not hold [c]. *)
Lemma indexOf_cut (line pre rest : jsstring) (x c : codeunit) :
  line = pre ++ x :: rest -> N.eqb x c = false ->
  indexOf [c] line (len pre) =
    if has c rest then len pre + 1 + len (before c rest) else -1.
Proof.
  intros -> Hx.
  rewrite indexOf_single
    by (rewrite len_app; pose proof (len_nonneg pre);
        pose proof (len_nonneg (x :: rest)); lia).
  unfold len. rewrite !Nat2Z.id, !skipn_app, !skipn_all, !Nat.sub_diag.
  cbn [app skipn]. unfold has, before. cbn [existsb takeWhile].
  rewrite (N.eqb_sym c x), Hx. cbn [orb negb].
  destruct (existsb (N.eqb c) rest); [|reflexivity].
  unfold len, jsstring, codeunit; cbn [length]. lia.
Qed.

Lemma before_le_cut (c : codeunit) (rest : jsstring) :
  has c rest = true -> len (before c rest) < len rest.
Proof.
  intros H. apply has_split in H.
  pose proof (takeWhile_dropWhile (fun y => negb (N.eqb y c)) rest) as E.
  rewrite H in E. fold (before c rest) in E.
  rewrite <- E at 2. rewrite len_app. unfold len at 3. cbn [length]. lia.
Qed.

Lemma substring_cut (line pre rest : jsstring) (x c : codeunit) :
  line = pre ++ x :: rest -> has c rest = true ->
  substring line (len pre + 1) (len pre + 1 + len (before c rest))
  = before c rest
  /\ substring line (len pre) (len pre + 1 + len (before c rest))
     = x :: before c rest.
Proof.
  intros -> H. pose proof (before_le_cut c rest H) as Hlt.
  pose proof (len_nonneg pre) as Hp.
  pose proof (len_nonneg (before c rest)) as Hb.
  assert (Hl : len (pre ++ x :: rest) = len pre + 1 + len rest)
    by (rewrite len_app; unfold len; cbn [length]; lia).
  split.
  - rewrite substring_inside by lia.
    replace (Z.to_nat (len pre + 1)) with (length pre + 1)%nat
      by (unfold len; lia).
    replace (len pre + 1 + len (before c rest) - (len pre + 1))
      with (len (before c rest)) by lia.
    rewrite skipn_app, skipn_all2 by lia.
    replace (length pre + 1 - length pre)%nat with 1%nat by lia.
    cbn [app skipn]. apply firstn_len_before.
  - rewrite substring_inside by lia.
    replace (Z.to_nat (len pre)) with (length pre)
      by (unfold len; lia).
    replace (Z.to_nat (len pre + 1 + len (before c rest) - len pre))
      with (S (Z.to_nat (len (before c rest)))) by lia.
    rewrite skipn_app, skipn_all, Nat.sub_diag.
    cbn [app skipn firstn]. now rewrite firstn_len_before.
Qed.

(** A line splits before its first [c] and before its first digit. *)
Lemma line_split_at (c : codeunit) (line : jsstring) :
  has c line = true -> line = before c line ++ c :: after c line.
Proof.
  intros H. apply has_split in H. rewrite <- H.
  symmetry. apply takeWhile_dropWhile.
Qed.

Lemma line_split_digit (line : jsstring) :
  existsb isDigit line = true ->
  exists d rest,
    fromDigit line = d :: rest /\ isDigit d = true
    /\ line = takeWhile (fun x => negb (isDigit x)) line ++ d :: rest.
Proof.
  intros H. rewrite dropWhile_nil_existsb in H. fold (fromDigit line) in H.
  destruct (fromDigit line) as [|d rest] eqn:E; [discriminate|].
  exists d, rest. split; [reflexivity|]. split.
  - apply dropWhile_head in E. now apply negb_false_iff in E.
  - rewrite <- E. symmetry. apply takeWhile_dropWhile.
Qed.

(* ---------------------------------------------------------------- *)
(** *** The amount *)

(** The first attempt of [readAmount] is the primary strategy. *)
Lemma primary_read (line : jsstring) :
  (let amountStart := indexOf (lit "$") line 0 in
   let amountEnd := indexOf (lit " ") line amountStart in
   if negb (amountStart =? -1) && negb (amountEnd =? -1) then
     Some (parseFloat
             (replaceAll 44%N []
                (trim (substring line (amountStart + 1) amountEnd))))
   else None) = primaryAmount line.
Proof.
  cbv zeta. change (lit "$") with [dollar]. change (lit " ") with [space].
  unfold primaryAmount. rewrite indexOf_single_0.
  destruct (has dollar line) eqn:Hd; cbn [andb].
  - pose proof (line_split_at _ _ Hd) as E.
    pose proof (len_nonneg (before dollar line)) as Hn.
    rewrite (indexOf_cut _ _ _ dollar space E eq_refl).
    destruct (has space (after dollar line)) eqn:Hs.
    + pose proof (len_nonneg (before space (after dollar line))) as Hm.
      destruct (substring_cut _ _ _ dollar space E Hs) as [-> _].
      rewrite replaceAll_remove.
      replace (len (before dollar line) =? -1) with false
        by (symmetry; apply Z.eqb_neq; lia).
      replace (len (before dollar line) + 1
               + len (before space (after dollar line)) =? -1) with false
        by (symmetry; apply Z.eqb_neq; lia).
      reflexivity.
    + rewrite andb_false_r. reflexivity.
  - reflexivity.
Qed.

(** The second attempt of [readAmount] is the fallback strategy. *)
Lemma fallback_read (line : jsstring) :
  (let digitStart := search_digit line in
   let digitEnd := indexOf (lit " ") line digitStart in
   if negb (digitStart =? -1) && negb (digitEnd =? -1) then
     Some (parseFloat
             (replaceAll 44%N (lit ".")
                (trim (substring line digitStart digitEnd))))
   else None) = fallbackAmount line.
Proof.
  cbv zeta. change (lit " ") with [space]. change (lit ".") with [46%N].
  unfold fallbackAmount, search_digit. rewrite search_from_spec.
  destruct (existsb isDigit line) eqn:Hd; cbn [andb]; [|reflexivity].
  destruct (line_split_digit _ Hd) as (d & rest & Ef & Hdig & E).
  set (pre := takeWhile (fun x => negb (isDigit x)) line) in *.
  pose proof (len_nonneg pre) as Hn.
  assert (Hds : N.eqb d space = false).
  { destruct (N.eqb d space) eqn:Q; [|reflexivity].
    apply N.eqb_eq in Q. subst d. discriminate Hdig. }
  rewrite Z.add_0_l, (indexOf_cut _ _ _ d space E Hds), Ef.
  rewrite (has_cons_other _ _ _ Hds), (before_cons_other _ _ _ Hds).
  destruct (has space rest) eqn:Hs.
  - pose proof (len_nonneg (before space rest)) as Hm.
    destruct (substring_cut _ _ _ d space E Hs) as [_ ->].
    rewrite replaceAll_one.
    replace (len pre =? -1) with false by (symmetry; apply Z.eqb_neq; lia).
    replace (len pre + 1 + len (before space rest) =? -1) with false
      by (symmetry; apply Z.eqb_neq; lia).
    reflexivity.
  - rewrite andb_false_r. reflexivity.
Qed.

(** [readAmount] computes the amount of the two strategies. *)
Lemma readAmount_amountOfLine (line : jsstring) :
  readAmount line = amountOfLine line.
Proof.
  pose proof (primary_read line) as P.
  pose proof (fallback_read line) as F.
  cbv zeta in P, F. unfold readAmount, amountOfLine. cbv zeta.
  rewrite P. destruct (primaryAmount line) as [p|]; [|reflexivity].
  cbn [isNaN]. destruct (Number_isNaN p); [|reflexivity].
  rewrite <- F.
  destruct (negb (search_digit line =? -1)
            && negb (indexOf (lit " ") line (search_digit line) =? -1));
    reflexivity.
Qed.

(* ---------------------------------------------------------------- *)
(** *** The currency *)

Lemma readCurrency_parenthesized (line : jsstring) :
  readCurrency line =
    if has lparen line && has rparen (after lparen line)
       && (2 <=? len (parenthesized line))
    then Some (parenthesized line) else None.
Proof.
  unfold readCurrency, parenthesized. cbv zeta.
  change (lit "(") with [lparen]. change (lit ")") with [rparen].
  rewrite indexOf_single_0.
  destruct (has lparen line) eqn:Hl; cbn [andb]; [|reflexivity].
  pose proof (line_split_at _ _ Hl) as E.
  pose proof (len_nonneg (before lparen line)) as Hn.
  rewrite (indexOf_cut _ _ _ lparen rparen E eq_refl).
  destruct (has rparen (after lparen line)) eqn:Hr; cbn [andb].
  - pose proof (len_nonneg (before rparen (after lparen line))) as Hm.
    destruct (substring_cut _ _ _ lparen rparen E Hr) as [-> _].
    replace (len (before lparen line) =? -1) with false
      by (symmetry; apply Z.eqb_neq; lia).
    replace (len (before lparen line) + 1
             + len (before rparen (after lparen line)) =? -1) with false
      by (symmetry; apply Z.eqb_neq; lia).
    cbn [negb andb].
    replace (3 <=? len (before lparen line) + 1
                   + len (before rparen (after lparen line))
                   - len (before lparen line))
      with (2 <=? len (before rparen (after lparen line)))
      by (apply Bool.eq_true_iff_eq; rewrite !Z.leb_le; lia).
    reflexivity.
  - rewrite andb_false_r. reflexivity.
Qed.

(* ---------------------------------------------------------------- *)
(** *** The body *)

(** [parseBody] raises exactly when there is no second line. *)
Lemma parseBody_throws (bodyText : jsstring) :
  nth_error (normalize bodyText) 1 = None ->
  parseBody bodyText = Throw TypeError.
Proof.
  intros H. unfold parseBody. cbv zeta. rewrite H. reflexivity.
Qed.

Lemma parseBody_returns (bodyText fromLine : jsstring) :
  nth_error (normalize bodyText) 1 = Some fromLine ->
  exists b, parseBody bodyText = Return b.
Proof.
  intros H. unfold parseBody. cbv zeta. rewrite H. cbn [readUpperCase bind].
  destruct (containsLine (normalize bodyText) (lit "$")) as [[|c l]|];
    eexists; reflexivity.
Qed.

(** The fields of a returned body. *)
Lemma parseBody_fields (bodyText : jsstring) (b : Body.t) :
  parseBody bodyText = Return b ->
  (exists fromLine,
      nth_error (normalize bodyText) 1 = Some fromLine
      /\ Body.from_name b
         = trim (substring fromLine 0 (upperCaseEnd fromLine 0 - 1)))
  /\ Body.text b = join newline (normalize bodyText)
  /\ Body.language b = tokenStarts (toLowerCase (Body.text b)) body_greetings
  /\ Body.is_auto_deposit b
     = match tokenExists (toLowerCase (Body.text b)) automatic_deposit with
       | Some _ => true
       | None => false
       end
  /\ Body.amount b
     = match amountLine bodyText with
       | Some line => readAmount line
       | None => None
       end
  /\ Body.currency b
     = match amountLine bodyText with
       | Some line => readCurrency line
       | None => None
       end
  /\ Body.is_valid_amount b = validAmount (Body.amount b).
Proof.
  unfold parseBody, amountLine. cbv zeta.
  destruct (nth_error (normalize bodyText) 1) as [fromLine|];
    cbn [readUpperCase bind]; [|discriminate].
  destruct (containsLine (normalize bodyText) (lit "$")) as [[|c l]|];
    intros H; injection H as <-; cbn [Body.from_name Body.text Body.language
      Body.is_auto_deposit Body.amount Body.currency Body.is_valid_amount];
    (split; [exists fromLine; split; reflexivity|]);
    repeat split.
Qed.

(** The selected line contains a [$]. *)
Lemma amountLine_has_dollar (bodyText line : jsstring) :
  amountLine bodyText = Some line -> has dollar line = true.
Proof.
  unfold amountLine, containsLine. intros H.
  apply find_some in H as [_ H]. change (lit "$") with [dollar] in H.
  rewrite indexOf_single_0 in H.
  destruct (has dollar line); [reflexivity | discriminate].
Qed.

(* ---------------------------------------------------------------- *)
(** *** The sender name *)

Lemma upperCaseEnd_run (rest : jsstring) (index : Z) :
  upperCaseEnd rest index = index + len (takeWhile ownUpperCase rest).
Proof.
  revert index. induction rest as [|c rest IH]; intros index.
  - unfold len; simpl; lia.
  - cbn [upperCaseEnd takeWhile]. fold (ownUpperCase c).
    destruct (ownUpperCase c); cbn [negb].
    + rewrite IH. unfold len; cbn [length]. lia.
    + unfold len; simpl; lia.
Qed.

(** Cutting one position before the end of the run drops its last
    character. *)
Lemma substring_run (p : codeunit -> bool) (line : jsstring) :
  substring line 0 (len (takeWhile p line) - 1)
  = removelast (takeWhile p line).
Proof.
  rewrite removelast_firstn_len.
  destruct (takeWhile p line) as [|c tw] eqn:E.
  - pose proof (len_nonneg line) as Hn.
    unfold substring, clamp. change (len [] - 1) with (-1).
    rewrite (Z.max_r (-1) 0), (Z.max_l 0 0), (Z.min_l 0 (len line)) by lia.
    reflexivity.
  - rewrite <- E. assert (Hpos : (1 <= length (takeWhile p line))%nat)
      by (rewrite E; simpl; lia).
    pose proof (length_takeWhile_le p line) as Hle.
    rewrite substring_inside by zlen.
    cbn [Z.to_nat skipn].
    replace (Z.to_nat (len (takeWhile p line) - 1 - 0))
      with (Nat.pred (length (takeWhile p line))) by zlen.
    set (n := length (takeWhile p line)) in *.
    rewrite <- (firstn_takeWhile p line). fold n.
    rewrite firstn_firstn. f_equal. lia.
Qed.

(** What [trimEnd] keeps is a prefix. *)
Lemma rev_dropWhile_prefix {A : Type} (p : A -> bool) (l : list A) :
  exists suffix, rev l = rev (dropWhile p l) ++ suffix.
Proof.
  induction l as [|x l IH]; [exists []; reflexivity|].
  cbn [dropWhile rev]. destruct IH as [suffix IH].
  destruct (p x).
  - exists (suffix ++ [x]). now rewrite IH, <- app_assoc.
  - exists []. cbn [rev]. now rewrite app_nil_r.
Qed.

Lemma trimEnd_prefix (s : jsstring) : exists suffix, s = trimEnd s ++ suffix.
Proof.
  unfold trimEnd.
  destruct (rev_dropWhile_prefix isWhiteSpace (rev s)) as [suffix E].
  rewrite rev_involutive in E. now exists suffix.
Qed.

(** A trimmed string does not start with white space. *)
Lemma trim_head (s : jsstring) (c : codeunit) (r : jsstring) :
  trim s = c :: r -> isWhiteSpace c = false.
Proof.
  unfold trim, trimStart. intros H.
  destruct (trimEnd_prefix (dropWhile isWhiteSpace s)) as [suffix E].
  rewrite H in E. cbn [app] in E.
  exact (dropWhile_head _ _ _ _ E).
Qed.

Lemma trim_no_leading_space (s : jsstring) :
  match s with c :: _ => isWhiteSpace c = false | [] => True end ->
  trim s = trimEnd s.
Proof.
  destruct s as [|c s]; [reflexivity|]. intros H.
  unfold trim, trimStart. cbn [dropWhile]. now rewrite H.
Qed.

(** The lines of a body are trimmed and not empty. *)
Lemma normalize_line (bodyText line : jsstring) :
  In line (normalize bodyText) ->
  exists c r, line = c :: r /\ isWhiteSpace c = false.
Proof.
  unfold normalize. intros H. apply filter_In in H as [H Hlen].
  apply in_map_iff in H as (s & Hs & _).
  destruct line as [|c r]; [discriminate Hlen|].
  exists c, r. split; [reflexivity|]. exact (trim_head _ _ _ Hs).
Qed.

Lemma removelast_takeWhile_head (p : codeunit -> bool) (c : codeunit)
      (r : jsstring) :
  match removelast (takeWhile p (c :: r)) with
  | x :: _ => x = c
  | [] => True
  end.
Proof.
  cbn [takeWhile]. destruct (p c); [|exact I].
  cbn [removelast]. destruct (takeWhile p r); [exact I | reflexivity].
Qed.

Lemma readUpperCase_senderName (bodyText line : jsstring) :
  In line (normalize bodyText) ->
  readUpperCase (Some line) = Return (senderName line).
Proof.
  intros H. destruct (normalize_line _ _ H) as (c & r & -> & Hc).
  unfold readUpperCase, senderName. cbv zeta. f_equal.
  rewrite upperCaseEnd_run, Z.add_0_l, substring_run.
  apply trim_no_leading_space.
  pose proof (removelast_takeWhile_head ownUpperCase c r) as Hh.
  destruct (removelast (takeWhile ownUpperCase (c :: r))) as [|x l];
    [exact I | now subst x].
Qed.

(* ---------------------------------------------------------------- *)
(** *** The validation *)

Lemma Subsequence_In {A : Type} (l m : list A) (x : A) :
  Subsequence l m -> In x l -> In x m.
Proof.
  induction 1 as [|y l m _ IH|y l m _ IH]; simpl; intuition.
Qed.

Lemma Subsequence_NoDup {A : Type} (l m : list A) :
  Subsequence l m -> NoDup m -> NoDup l.
Proof.
  induction 1 as [|y l m _ IH|y l m S IH]; intros N.
  - exact N.
  - inversion N; auto.
  - inversion N as [|? ? Hy Hm]; subst. constructor; [|auto].
    intros Hin. apply Hy. exact (Subsequence_In _ _ _ S Hin).
Qed.

Lemma Subsequence_length {A : Type} (l m : list A) :
  Subsequence l m -> (length l <= length m)%nat.
Proof. induction 1; simpl; lia. Qed.

(** The four messages differ, whatever the amount. *)
Lemma allErrors_NoDup (amount : option number) : NoDup (allErrors amount).
Proof.
  unfold allErrors. repeat constructor; simpl;
    intros H; repeat (destruct H as [H|H]; try discriminate H); exact H.
Qed.

Lemma validate_Subsequence (subject : Subject.t) (body : Body.t) :
  Subsequence (validate subject body) (allErrors (Body.amount body)).
Proof.
  unfold validate, allErrors, push. cbv zeta.
  destruct (negb (Subject.is_email_transfer subject));
    destruct (negb (Body.is_valid_amount body));
    destruct (negb (language_eqb (Subject.language subject)
                                 (Body.language body)));
    destruct (negb (Bool.eqb (Subject.is_auto_deposit subject)
                             (Body.is_auto_deposit body)));
    cbn [app]; eauto 6 using @Subsequence.
Qed.

Lemma language_eqb_eq (a b : option Language) :
  language_eqb a b = true <-> a = b.
Proof.
  destruct a as [[]|], b as [[]|]; simpl; split; congruence.
Qed.

(** Each message is in the list exactly when its check fails. *)
Lemma validate_language (subject : Subject.t) (body : Body.t) :
  In errLanguage (validate subject body)
  <-> Subject.language subject <> Body.language body.
Proof.
  rewrite <- language_eqb_eq.
  unfold validate, push. cbv zeta.
  destruct (negb (Subject.is_email_transfer subject));
    destruct (negb (Body.is_valid_amount body));
    destruct (language_eqb (Subject.language subject) (Body.language body));
    destruct (negb (Bool.eqb (Subject.is_auto_deposit subject)
                             (Body.is_auto_deposit body)));
    cbn [app negb In]; split; intros H; try congruence;
    try (now auto 6);
    repeat (destruct H as [H|H]; try discriminate H); try contradiction.
Qed.

Lemma validate_amount (subject : Subject.t) (body : Body.t) :
  Body.is_valid_amount body = false ->
  In (errAmountPrefix ++ ToString (Body.amount body))
     (validate subject body).
Proof.
  intros Hv. unfold validate, push. cbv zeta. rewrite Hv.
  destruct (negb (Subject.is_email_transfer subject));
    destruct (negb (language_eqb (Subject.language subject)
                                 (Body.language body)));
    destruct (negb (Bool.eqb (Subject.is_auto_deposit subject)
                             (Body.is_auto_deposit body)));
    cbn [app negb In]; auto 6.
Qed.

Lemma find_existsb {A : Type} (p : A -> bool) (l : list A) :
  match find p l with Some _ => true | None => false end = existsb p l.
Proof.
  induction l as [|x l IH]; simpl; [reflexivity|].
  destruct (p x); [reflexivity | exact IH].
Qed.

(** The fields of a returned record. *)
Lemma parse_fields (email : Email.t) (r : Result.t) :
  parse email = Return r ->
  exists b,
    parseBody (Email.text email) = Return b
    /\ Result.errors r
       = (let errors := validate (parseSubject (Email.subject email)) b in
          if 0 <? Z.of_nat (length errors) then Some errors else None)
    /\ Result.language r
       = match Body.language b with
         | Some l => Some l
         | None => Subject.language (parseSubject (Email.subject email))
         end
    /\ Result.isAutoDeposit r
       = Body.is_auto_deposit b
         && Subject.is_auto_deposit (parseSubject (Email.subject email))
    /\ Result.isEmailTransfer r
       = Subject.is_email_transfer (parseSubject (Email.subject email))
         && Body.is_valid_amount b
    /\ Result.amount r = Body.amount b
    /\ Result.currency r = Body.currency b.
Proof.
  unfold parse. cbv zeta.
  destruct (parseBody (Email.text email)) as [b|e]; cbn [bind];
    [|discriminate].
  intros H; injection H as <-. exists b. repeat split.
Qed.

Lemma parse_errorList (email : Email.t) (r : Result.t) (b : Body.t) :
  parse email = Return r -> parseBody (Email.text email) = Return b ->
  errorList r = validate (parseSubject (Email.subject email)) b.
Proof.
  intros H Hb. apply parse_fields in H as (b' & Hb' & He & _).
  rewrite Hb in Hb'. injection Hb' as <-.
  unfold errorList. rewrite He. cbv zeta.
  destruct (validate (parseSubject (Email.subject email)) b); reflexivity.
Qed.

(** [parse] returns exactly when the body has a second line. *)
Lemma parse_returns_iff (email : Email.t) :
  (exists r, parse email = Return r)
  <-> (2 <= length (normalize (Email.text email)))%nat.
Proof.
  split.
  - intros [r H]. apply parse_fields in H as (b & Hb & _).
    apply parseBody_fields in Hb as [(fromLine & Hn & _) _].
    apply nth_error_Some. congruence.
  - intros H. apply nth_error_Some in H.
    destruct (nth_error (normalize (Email.text email)) 1) as [l|] eqn:E;
      [|congruence].
    destruct (parseBody_returns _ _ E) as [b Hb].
    unfold parse. cbv zeta. rewrite Hb. cbn [bind]. eexists; reflexivity.
Qed.

(** The parser renders no number other than [NaN]: an invalid amount is
    [null] or [NaN]. *)
Lemma invalid_amount_rendering (amount : option number) :
  validAmount amount = false ->
  ToString amount = match amount with
                    | None => lit "null"
                    | Some _ => lit "NaN"
                    end.
Proof.
  destruct amount as [x|]; simpl; [|reflexivity].
  destruct (Number_isNaN x); [reflexivity | discriminate].
Qed.

(* ---------------------------------------------------------------- *)
(** *** Properties of the parser *)

(** C1 (amended).  On a body that [parseBody] returns and whose amount
    line has a [(] followed later by a [)], the currency is what stands
    strictly between the first [(] and the next [)] when that has at
    least two characters, and is unset otherwise: the test of the
    source compares the distance of the two parentheses with 3. *)
Theorem currency_between_parentheses (bodyText : jsstring) (b : Body.t)
        (line : jsstring) :
  parseBody bodyText = Return b ->
  amountLine bodyText = Some line ->
  has lparen line = true ->
  has rparen (after lparen line) = true ->
  Body.currency b =
    if 2 <=? len (parenthesized line) then Some (parenthesized line)
    else None.
Proof.
  intros Hb Hl H1 H2.
  apply parseBody_fields in Hb as (_ & _ & _ & _ & _ & Hc & _).
  rewrite Hc, Hl, readCurrency_parenthesized, H1, H2. reflexivity.
Qed.

(** C3 (amended).  On a body that [parseBody] returns, the flag
    [is_valid_amount] is true exactly when the amount is a number other
    than [NaN]; an infinite amount is valid. *)
Theorem valid_amount_iff_not_NaN (bodyText : jsstring) (b : Body.t) :
  parseBody bodyText = Return b ->
  (Body.is_valid_amount b = true
   <-> exists x, Body.amount b = Some x /\ Number_isNaN x = false).
Proof.
  intros Hb.
  apply parseBody_fields in Hb as (_ & _ & _ & _ & _ & _ & Hv).
  rewrite Hv. destruct (Body.amount b) as [x|]; cbn [validAmount].
  - rewrite negb_true_iff. split.
    + intros H. exists x. now split.
    + intros (y & Hy & H). now injection Hy as ->.
  - split; [discriminate|]. intros (y & Hy & _). discriminate Hy.
Qed.

(** C4 (amended).  On a body that [parseBody] returns, with [line] its
    amount line: when a space follows the [$], the amount is the primary
    value, unless that is [NaN], in which case it is the fallback value
    when the line has a digit with a space after it, and stays [NaN]
    when it has not; when no space follows the [$] and the line has no
    digit with a space after it, neither strategy has anything to read
    and the amount stays [null]. *)
Theorem amount_by_two_strategies (bodyText : jsstring) (b : Body.t)
        (line : jsstring) :
  parseBody bodyText = Return b ->
  amountLine bodyText = Some line ->
  has dollar line = true
  /\ (has space (after dollar line) = true ->
      Body.amount b =
        (let primary :=
           parseFloat (filter (fun x => negb (N.eqb x comma))
                              (trim (before space (after dollar line)))) in
         if Number_isNaN primary then
           if existsb isDigit line && has space (fromDigit line) then
             Some (parseFloat
                     (map (fun x => if N.eqb x comma then 46%N else x)
                          (trim (before space (fromDigit line)))))
           else Some primary
         else Some primary))
  /\ (has space (after dollar line) = false ->
      existsb isDigit line && has space (fromDigit line) = false ->
      Body.amount b = None).
Proof.
  intros Hb Hl. pose proof (amountLine_has_dollar _ _ Hl) as Hd.
  split; [exact Hd|].
  apply parseBody_fields in Hb as (_ & _ & _ & _ & Ha & _).
  rewrite Ha, Hl, readAmount_amountOfLine.
  unfold amountOfLine, primaryAmount, fallbackAmount. rewrite Hd.
  cbn [andb]. cbv zeta. split.
  - intros Hs. rewrite Hs.
    destruct (Number_isNaN _); [|reflexivity].
    destruct (existsb isDigit line && has space (fromDigit line));
      reflexivity.
  - intros Hs _. rewrite Hs. reflexivity.
Qed.

(** C8.  For a body with a second line, [parseBody] returns and the
    sender name is the leading run of that line made of characters that
    are their own upper-cased form, without the last character of the
    run, trimmed of trailing white space. *)
Theorem sender_name_of_second_line (bodyText line : jsstring) :
  nth_error (normalize bodyText) 1 = Some line ->
  exists b,
    parseBody bodyText = Return b
    /\ Body.from_name b
       = trimEnd (removelast (takeWhile ownUpperCase line)).
Proof.
  intros Hn. destruct (parseBody_returns _ _ Hn) as [b Hb].
  exists b. split; [exact Hb|].
  pose proof (readUpperCase_senderName _ _ (nth_error_In _ _ Hn)) as Hr.
  apply parseBody_fields in Hb as [(fromLine & Hn' & Hf) _].
  rewrite Hn in Hn'. injection Hn' as <-.
  unfold readUpperCase in Hr. cbv zeta in Hr. injection Hr as Hr.
  rewrite Hf, Hr. reflexivity.
Qed.

(** C5.  The errors of a returned record are [null] or a list that is
    not empty and without repetition. *)
Theorem errors_null_or_distinct (email : Email.t) (r : Result.t) :
  parse email = Return r ->
  match Result.errors r with
  | None => True
  | Some l => l <> [] /\ (1 <= length l)%nat /\ NoDup l
  end.
Proof.
  intros H. apply parse_fields in H as (b & _ & He & _).
  rewrite He. cbv zeta.
  pose proof (validate_Subsequence (parseSubject (Email.subject email)) b)
    as S.
  apply Subsequence_NoDup in S as N; [|apply allErrors_NoDup].
  destruct (validate (parseSubject (Email.subject email)) b) as [|x l];
    cbn [length Z.of_nat Z.ltb Z.compare]; [exact I|].
  repeat split; [discriminate | simpl; lia | exact N].
Qed.

(** C6.  In a returned record the language is that of the body when
    there is one and that of the subject otherwise, [isAutoDeposit] is
    the conjunction of the claims of the body and of the subject, and
    [isEmailTransfer] the conjunction of the recognition of the subject
    and of the validity of the amount. *)
Theorem derived_fields (email : Email.t) (r : Result.t) :
  parse email = Return r ->
  exists b,
    parseBody (Email.text email) = Return b
    /\ Result.language r
       = match bodyLanguage email with
         | Some l => Some l
         | None => subjectLanguage email
         end
    /\ Result.isAutoDeposit r
       = bodyAutoDeposit email && subjectAutoDeposit email
    /\ Result.isEmailTransfer r
       = subjectRecognized email && Body.is_valid_amount b.
Proof.
  intros H. apply parse_fields in H as (b & Hb & _ & Hl & Ha & Ht & _).
  exists b. split; [exact Hb|].
  apply parseBody_fields in Hb as (_ & Htext & Hlang & Hauto & _).
  rewrite Htext in Hlang, Hauto.
  split; [|split].
  - rewrite Hl, Hlang. reflexivity.
  - rewrite Ha, Hauto. unfold bodyAutoDeposit, subjectAutoDeposit.
    cbn [parseSubject Subject.is_auto_deposit]. unfold tokenExists.
    rewrite <- !find_existsb. reflexivity.
  - rewrite Ht. unfold subjectRecognized.
    cbn [parseSubject Subject.is_email_transfer]. unfold tokenStarts.
    now rewrite <- find_existsb.
Qed.

(** C7.  The errors of a returned record contain the message of the
    language mismatch exactly when the language of the subject and the
    language of the body differ, [null] being equal to itself: two
    undetected languages give no such message. *)
Theorem language_mismatch_error (email : Email.t) (r : Result.t) :
  parse email = Return r ->
  (In errLanguage (errorList r)
   <-> subjectLanguage email <> bodyLanguage email)
  /\ (subjectLanguage email = None -> bodyLanguage email = None ->
      ~ In errLanguage (errorList r)).
Proof.
  intros H. pose proof H as H'.
  apply parse_fields in H' as (b & Hb & _).
  rewrite (parse_errorList _ _ _ H Hb), validate_language.
  apply parseBody_fields in Hb as (_ & Htext & Hlang & _).
  rewrite Htext in Hlang. rewrite Hlang.
  cbn [parseSubject Subject.language].
  fold (subjectLanguage email). fold (bodyLanguage email).
  split; [reflexivity|]. intros -> ->. intros N. now apply N.
Qed.

(** C10.  The errors of a returned record, when not [null], are a
    subsequence of the four messages in the order of the checks; the
    four messages differ, so that none occurs twice, and the list has
    between one and four elements. *)
Theorem errors_subsequence (email : Email.t) (r : Result.t)
        (l : list jsstring) :
  parse email = Return r ->
  Result.errors r = Some l ->
  Subsequence l (allErrors (Result.amount r))
  /\ NoDup (allErrors (Result.amount r))
  /\ NoDup l
  /\ (1 <= length l <= 4)%nat.
Proof.
  intros H Hl. apply parse_fields in H as (b & _ & He & _ & _ & _ & Ha & _).
  rewrite Ha.
  pose proof (validate_Subsequence (parseSubject (Email.subject email)) b)
    as S.
  rewrite He in Hl. cbv zeta in Hl.
  destruct (0 <? Z.of_nat (length (validate (parseSubject
              (Email.subject email)) b))) eqn:E; [|discriminate].
  injection Hl as <-. apply Z.ltb_lt in E.
  pose proof (Subsequence_length _ _ S) as L. cbn [allErrors length] in L.
  repeat split;
    [ exact S | apply allErrors_NoDup
    | exact (Subsequence_NoDup _ _ S (allErrors_NoDup _)) | lia | exact L ].
Qed.

(** A body without a [$] on any line, when it has a second line: the
    amount and the currency are unset, the amount is not valid and the
    record has the message of the amount, rendered [null]. *)
Lemma no_amount_line (email : Email.t) (fromLine : jsstring) :
  amountLine (Email.text email) = None ->
  nth_error (normalize (Email.text email)) 1 = Some fromLine ->
  exists b r,
    parseBody (Email.text email) = Return b
    /\ Body.amount b = None /\ Body.currency b = None
    /\ Body.is_valid_amount b = false
    /\ parse email = Return r
    /\ In (errAmountPrefix ++ lit "null") (errorList r).
Proof.
  intros Hl Hn. destruct (parseBody_returns _ _ Hn) as [b Hb].
  pose proof Hb as Hf.
  apply parseBody_fields in Hf as (_ & _ & _ & _ & Ha & Hc & Hv).
  rewrite Hl in Ha, Hc. rewrite Ha in Hv. cbn [validAmount] in Hv.
  destruct (proj2 (parse_returns_iff email)) as [r Hr].
  { apply nth_error_Some. congruence. }
  exists b, r. repeat split; try assumption.
  rewrite (parse_errorList _ _ _ Hr Hb).
  pose proof (validate_amount (parseSubject (Email.subject email)) b Hv)
    as Hin.
  now rewrite Ha in Hin.
Qed.

(** C2.  A message whose body has one line: [parse] raises a
    [TypeError], when [readUpperCase] reads the length of the missing
    second line. *)
Theorem parse_throws_on_one_line (subject : jsstring) :
  parse (emailOf subject bodyOneLine) = Throw TypeError.
Proof.
  unfold parse. cbv zeta. cbn [Email.text emailOf].
  rewrite parseBody_throws; reflexivity.
Qed.

(** C9.  A body of one line without [$]: no line is selected for the
    amount, and [parseBody] raises a [TypeError] before it looks for
    one, so that [parse] returns no record. *)
Theorem parseBody_throws_before_amount (subject : jsstring) :
  amountLine bodyNoAmountOneLine = None
  /\ parseBody bodyNoAmountOneLine = Throw TypeError
  /\ parse (emailOf subject bodyNoAmountOneLine) = Throw TypeError.
Proof.
  split; [reflexivity|].
  assert (H : parseBody bodyNoAmountOneLine = Throw TypeError)
    by (apply parseBody_throws; reflexivity).
  split; [exact H|].
  unfold parse. cbv zeta. cbn [Email.text emailOf]. now rewrite H.
Qed.

(* ---------------------------------------------------------------- *)
(** *** The tokens *)

Lemma startsWith_iff (p s : jsstring) :
  startsWith p s = true <-> exists post, s = p ++ post.
Proof.
  revert s. induction p as [|x p IH]; intros s.
  - simpl. split; [intros _; exists s; reflexivity | reflexivity].
  - destruct s as [|y s]; simpl.
    + split; [discriminate | intros [post H]; discriminate H].
    + rewrite andb_true_iff, N.eqb_eq, IH. split.
      * intros [-> [post ->]]. exists post. reflexivity.
      * intros [post H]. injection H as -> ->.
        split; [reflexivity | exists post; reflexivity].
Qed.

(** Two prefixes of one string are prefixes of one another. *)
Lemma startsWith_comparable (p q s : jsstring) :
  startsWith p s = true -> startsWith q s = true ->
  startsWith p q = true \/ startsWith q p = true.
Proof.
  revert q s. induction p as [|x p IH]; intros q s Hp Hq.
  - left. reflexivity.
  - destruct q as [|y q]; [right; reflexivity|].
    destruct s as [|z s]; [discriminate Hp|].
    cbn [startsWith] in *.
    apply andb_true_iff in Hp as [Hx Hp]. apply andb_true_iff in Hq as [Hy Hq].
    apply N.eqb_eq in Hx, Hy. subst y z. rewrite N.eqb_refl. cbn [andb].
    exact (IH q s Hp Hq).
Qed.

Lemma indexOf_from_occurs (needle s : jsstring) (i : Z) :
  0 <= i -> (indexOf_from needle s i <> -1 <-> occurs needle s).
Proof.
  revert i. induction s as [|x s IH]; intros i Hi; cbn [indexOf_from].
  - destruct (startsWith needle []) eqn:E.
    + split; [intros _|lia].
      apply startsWith_iff in E as [post E].
      exists [], post. exact E.
    + split; [congruence|]. intros (pre & post & H).
      destruct pre; [|discriminate H]. cbn [app] in H.
      assert (E' : startsWith needle [] = true)
        by (apply startsWith_iff; now exists post).
      congruence.
  - destruct (startsWith needle (x :: s)) eqn:E.
    + split; [intros _|lia].
      apply startsWith_iff in E as [post E]. exists [], post. exact E.
    + rewrite IH by lia. split.
      * intros (pre & post & ->). exists (x :: pre), post. reflexivity.
      * intros (pre & post & H). destruct pre as [|y pre].
        -- cbn [app] in H.
           assert (E' : startsWith needle (x :: s) = true)
             by (apply startsWith_iff; now exists post).
           congruence.
        -- injection H as _ ->. now exists pre, post.
Qed.

(** [text.indexOf(needle) !== -1] says that [needle] occurs in [text]. *)
Lemma contains_occurs (needle text : jsstring) :
  contains needle text = true <-> occurs needle text.
Proof.
  unfold contains, indexOf.
  rewrite clamp_id by (pose proof (len_nonneg text); lia).
  cbn [Z.to_nat skipn].
  rewrite negb_true_iff, Z.eqb_neq. now apply indexOf_from_occurs.
Qed.

Lemma contains_false (needle text : jsstring) :
  contains needle text = false <-> ~ occurs needle text.
Proof.
  rewrite <- contains_occurs. now destruct (contains needle text).
Qed.

Lemma find_first {A : Type} (p : A -> bool) (pre post : list A) (x : A) :
  p x = true -> (forall y, In y pre -> p y = false) ->
  find p (pre ++ x :: post) = Some x.
Proof.
  intros Hx. induction pre as [|y pre IH]; intros H; cbn [app find].
  - now rewrite Hx.
  - rewrite (H y) by (left; reflexivity). apply IH.
    intros z Hz. apply H. now right.
Qed.

Lemma find_split {A : Type} (p : A -> bool) (l : list A) (x : A) :
  find p l = Some x ->
  exists pre post,
    l = pre ++ x :: post /\ p x = true /\ forall y, In y pre -> p y = false.
Proof.
  induction l as [|y l IH]; cbn [find]; [discriminate|].
  destruct (p y) eqn:E.
  - intros H; injection H as ->. exists [], l.
    repeat split; [exact E | intros z []].
  - intros H. destruct (IH H) as (pre & post & -> & Hx & Hpre).
    exists (y :: pre), post. repeat split; [exact Hx|].
    intros z [<-|Hz]; [exact E | now apply Hpre].
Qed.

Lemma find_none_iff {A : Type} (p : A -> bool) (l : list A) :
  find p l = None <-> forall y, In y l -> p y = false.
Proof.
  split; [apply find_none|].
  induction l as [|y l IH]; intros H; cbn [find]; [reflexivity|].
  rewrite (H y) by (left; reflexivity). apply IH.
  intros z Hz. apply H. now right.
Qed.

(** Apart from [message], the tokens of the two languages are not
    prefixes of one another. *)
Lemma tokens_incomparable (token : Token) :
  token <> message ->
  startsWith (Tokens en token) (Tokens fr token) = false
  /\ startsWith (Tokens fr token) (Tokens en token) = false.
Proof.
  destruct token; intros H; try (now elim H); split; reflexivity.
Qed.

(** X1.  [tokenExists] gives the first language, English before French,
    whose token occurs in the text, and [null] when none occurs. *)
Theorem tokenExists_occurs (text : jsstring) (token : Token) :
  (tokenExists text token = Some en <-> occurs (Tokens en token) text)
  /\ (tokenExists text token = Some fr
      <-> ~ occurs (Tokens en token) text /\ occurs (Tokens fr token) text)
  /\ (tokenExists text token = None
      <-> ~ occurs (Tokens en token) text
          /\ ~ occurs (Tokens fr token) text).
Proof.
  unfold tokenExists, languages. cbn [find].
  fold (contains (Tokens en token) text). fold (contains (Tokens fr token) text).
  rewrite <- !contains_false, <- !contains_occurs.
  destruct (contains (Tokens en token) text),
    (contains (Tokens fr token) text);
    repeat split; intros; try tauto; try congruence;
    try (destruct H; congruence).
Qed.

(** X2.  For every token but [message], whose two phrases are the same,
    no text starts with the phrases of both languages: [tokenStarts]
    gives a language exactly when the text starts with its phrase, in
    whatever order the languages are tried.  For [message] it never
    gives French. *)
Theorem tokenStarts_unambiguous (text : jsstring) (token : Token)
        (language : Language) :
  (token <> message ->
   (tokenStarts text token = Some language
    <-> startsWith (Tokens language token) text = true))
  /\ tokenStarts text message <> Some fr.
Proof.
  unfold tokenStarts, languages. cbn [find]. split.
  - intros Hm. destruct (tokens_incomparable token Hm) as [H1 H2].
    destruct (startsWith (Tokens en token) text) eqn:Een,
      (startsWith (Tokens fr token) text) eqn:Efr.
    + destruct (startsWith_comparable _ _ _ Een Efr); congruence.
    + destruct language; split; congruence.
    + destruct language; split; congruence.
    + destruct language; split; congruence.
  - cbn [Tokens].
    destruct (startsWith (lit "message") text); congruence.
Qed.

(** X3.  [tokenStartsLine] tries the languages before the lines: the
    first line that starts with the English phrase is returned, whatever
    the lines before it start with; without such a line, the first line
    that starts with the French phrase; and [null] when no line starts
    with either. *)
Theorem tokenStartsLine_priority (lines : list jsstring) (token : Token) :
  (forall pre line post,
      lines = pre ++ line :: post ->
      lineStarts en token line = true ->
      (forall x, In x pre -> lineStarts en token x = false) ->
      tokenStartsLine lines token = Some line)
  /\ (forall pre line post,
         lines = pre ++ line :: post ->
         (forall x, In x lines -> lineStarts en token x = false) ->
         lineStarts fr token line = true ->
         (forall x, In x pre -> lineStarts fr token x = false) ->
         tokenStartsLine lines token = Some line)
  /\ (tokenStartsLine lines token = None
      <-> forall x language, In x lines -> lineStarts language token x = false).
Proof.
  unfold tokenStartsLine, languages, lineStarts.
  cbn [tokenStartsLine_in]. unfold startsLine.
  split; [|split].
  - intros pre line post -> Hl Hpre.
    now rewrite (find_first _ pre post line Hl Hpre).
  - intros pre line post E Hen Hl Hpre.
    apply find_none_iff in Hen. rewrite Hen. subst lines.
    now rewrite (find_first _ pre post line Hl Hpre).
  - split.
    + intros H x language Hx.
      destruct (find (fun line =>
                  startsWith (Tokens en token) (toLowerCase line)) lines)
        eqn:Een; [discriminate|].
      destruct (find (fun line =>
                  startsWith (Tokens fr token) (toLowerCase line)) lines)
        eqn:Efr; [discriminate|].
      destruct language;
        [exact (proj1 (find_none_iff _ _) Een x Hx)
        |exact (proj1 (find_none_iff _ _) Efr x Hx)].
    + intros H.
      rewrite (proj2 (find_none_iff _ lines) (fun x Hx => H x en Hx)).
      now rewrite (proj2 (find_none_iff _ lines) (fun x Hx => H x fr Hx)).
Qed.

(** X4.  The subject is recognized exactly when its lower-cased text
    starts with the phrase of one of the languages, and claims the
    automatic deposit exactly when the phrase of one of them occurs in
    it; the text itself is returned as it came. *)
Theorem parseSubject_flags (text : jsstring) :
  (Subject.is_email_transfer (parseSubject text) = true
   <-> exists language post,
        toLowerCase text = Tokens language subject_start ++ post)
  /\ (Subject.is_auto_deposit (parseSubject text) = true
      <-> exists language,
           occurs (Tokens language automatic_deposit) (toLowerCase text))
  /\ (Subject.is_email_transfer (parseSubject text) = true
      <-> Subject.language (parseSubject text) <> None)
  /\ Subject.text (parseSubject text) = text.
Proof.
  cbn [parseSubject Subject.is_email_transfer Subject.is_auto_deposit
       Subject.language Subject.text].
  split; [|split; [|split; [|reflexivity]]].
  - unfold tokenStarts. rewrite find_existsb. unfold languages.
    cbn [existsb]. rewrite orb_false_r, orb_true_iff, !startsWith_iff.
    split.
    + intros [[post H]|[post H]]; eauto.
    + intros ([] & post & H); eauto.
  - unfold tokenExists. rewrite find_existsb. unfold languages.
    cbn [existsb]. rewrite orb_false_r, orb_true_iff.
    fold (contains (Tokens en automatic_deposit) (toLowerCase text)).
    fold (contains (Tokens fr automatic_deposit) (toLowerCase text)).
    rewrite !contains_occurs. split.
    + intros [H|H]; eauto.
    + intros ([] & H); eauto.
  - destruct (tokenStarts (toLowerCase text) subject_start);
      split; congruence.
Qed.

(* ---------------------------------------------------------------- *)
(** *** The lines of the body *)

Lemma split_not_nil (sep : codeunit) (s : jsstring) : split sep s <> [].
Proof.
  induction s as [|c s IH]; cbn [split]; [discriminate|].
  destruct (N.eqb c sep); [discriminate|].
  destruct (split sep s); [contradiction | discriminate].
Qed.

Lemma split_no_sep (sep : codeunit) (s l : jsstring) :
  In l (split sep s) -> ~ In sep l.
Proof.
  revert l. induction s as [|c s IH]; intros l; cbn [split].
  - intros [<-|[]] [].
  - destruct (N.eqb c sep) eqn:E.
    + intros [<-|H]; [intros [] | now apply IH].
    + destruct (split sep s) as [|l0 ls] eqn:Es.
      * now elim (split_not_nil sep s).
      * intros [<-|H].
        -- intros [->|H0]; [now rewrite N.eqb_refl in E|].
           apply (IH l0); [now left | exact H0].
        -- apply IH. now right.
Qed.

Lemma split_without_sep (sep : codeunit) (s : jsstring) :
  ~ In sep s -> split sep s = [s].
Proof.
  induction s as [|c s IH]; intros H; cbn [split]; [reflexivity|].
  destruct (N.eqb c sep) eqn:E.
  - apply N.eqb_eq in E. elim H. now left.
  - rewrite IH; [reflexivity|]. intros H0. apply H. now right.
Qed.

Lemma split_app_sep (sep : codeunit) (s t : jsstring) :
  ~ In sep s -> split sep (s ++ sep :: t) = s :: split sep t.
Proof.
  induction s as [|c s IH]; intros H; cbn [app split].
  - now rewrite N.eqb_refl.
  - destruct (N.eqb c sep) eqn:E.
    + apply N.eqb_eq in E. elim H. now left.
    + rewrite IH; [reflexivity|]. intros H0. apply H. now right.
Qed.

(** Splitting what was joined gives the lines back. *)
Lemma split_join (sep : codeunit) (lines : list jsstring) :
  lines <> [] -> (forall l, In l lines -> ~ In sep l) ->
  split sep (join [sep] lines) = lines.
Proof.
  induction lines as [|x lines IH]; intros Hne H; [now elim Hne|].
  destruct lines as [|y lines].
  - cbn [join]. apply split_without_sep. apply H. now left.
  - change (join [sep] (x :: y :: lines))
      with (x ++ sep :: join [sep] (y :: lines)).
    rewrite split_app_sep by (apply H; now left).
    rewrite IH; [reflexivity | discriminate|].
    intros l Hl. apply H. now right.
Qed.

Lemma dropWhile_incl {A : Type} (p : A -> bool) (l : list A) (x : A) :
  In x (dropWhile p l) -> In x l.
Proof.
  induction l as [|y l IH]; cbn [dropWhile]; [exact (fun H => H)|].
  destruct (p y); [intros H; right; now apply IH | exact (fun H => H)].
Qed.

Lemma dropWhile_idem {A : Type} (p : A -> bool) (l : list A) :
  dropWhile p (dropWhile p l) = dropWhile p l.
Proof.
  induction l as [|y l IH]; cbn [dropWhile]; [reflexivity|].
  destruct (p y) eqn:E; [exact IH|]. cbn [dropWhile]. now rewrite E.
Qed.

Lemma trim_incl (s : jsstring) (x : codeunit) : In x (trim s) -> In x s.
Proof.
  unfold trim, trimEnd, trimStart. intros H.
  apply in_rev, dropWhile_incl, in_rev in H.
  exact (dropWhile_incl _ _ _ H).
Qed.

Lemma trimEnd_idem (s : jsstring) : trimEnd (trimEnd s) = trimEnd s.
Proof.
  unfold trimEnd. now rewrite rev_involutive, dropWhile_idem.
Qed.

Lemma trim_idem (s : jsstring) : trim (trim s) = trim s.
Proof.
  rewrite (trim_no_leading_space (trim s)).
  - unfold trim. apply trimEnd_idem.
  - destruct (trim s) as [|c r] eqn:E; [exact I|].
    exact (trim_head _ _ _ E).
Qed.

Lemma normalize_trimmed (bodyText line : jsstring) :
  In line (normalize bodyText) -> trim line = line.
Proof.
  unfold normalize. intros H. apply filter_In in H as [H _].
  apply in_map_iff in H as (s & <- & _). apply trim_idem.
Qed.

Lemma normalize_no_newline (bodyText line : jsstring) :
  In line (normalize bodyText) -> ~ In 10%N line.
Proof.
  unfold normalize. intros H. apply filter_In in H as [H _].
  apply in_map_iff in H as (s & <- & Hs). intros Hin.
  apply trim_incl in Hin. exact (split_no_sep _ _ _ Hs Hin).
Qed.

Lemma map_fixed {A : Type} (f : A -> A) (l : list A) :
  (forall x, In x l -> f x = x) -> map f l = l.
Proof.
  induction l as [|x l IH]; intros H; cbn [map]; [reflexivity|].
  rewrite (H x) by (now left). rewrite IH; [reflexivity|].
  intros y Hy. apply H. now right.
Qed.

Lemma filter_all {A : Type} (p : A -> bool) (l : list A) :
  (forall x, In x l -> p x = true) -> filter p l = l.
Proof.
  induction l as [|x l IH]; intros H; cbn [filter]; [reflexivity|].
  rewrite (H x) by (now left). rewrite IH; [reflexivity|].
  intros y Hy. apply H. now right.
Qed.

(** Normalizing the normalized text changes nothing. *)
Lemma normalize_join (bodyText : jsstring) :
  normalize (join newline (normalize bodyText)) = normalize bodyText.
Proof.
  destruct (normalize bodyText) as [|l ls] eqn:E; [reflexivity|].
  rewrite <- E. unfold normalize at 1. unfold newline.
  rewrite split_join.
  - rewrite map_fixed by (apply normalize_trimmed).
    apply filter_all. intros x Hx.
    destruct (normalize_line _ _ Hx) as (c & r & -> & _). reflexivity.
  - rewrite E. discriminate.
  - apply normalize_no_newline.
Qed.

(** [parseBody] reads its argument through [normalize] only. *)
Lemma parseBody_normalize (text1 text2 : jsstring) :
  normalize text1 = normalize text2 -> parseBody text1 = parseBody text2.
Proof.
  intros H. unfold parseBody. cbv zeta. now rewrite H.
Qed.

(** X5.  The lines that [parseBody] works on are not empty, have no
    white space at either end and contain no line feed. *)
Theorem normalize_lines (bodyText line : jsstring) :
  In line (normalize bodyText) ->
  line <> [] /\ trim line = line /\ ~ In 10%N line
  /\ (exists c r, line = c :: r /\ isWhiteSpace c = false)
  /\ (exists r c, line = r ++ [c] /\ isWhiteSpace c = false).
Proof.
  intros H. destruct (normalize_line _ _ H) as (c & r & E & Hc).
  pose proof (normalize_trimmed _ _ H) as Ht.
  split; [subst; discriminate|]. split; [exact Ht|].
  split; [exact (normalize_no_newline _ _ H)|].
  split; [now exists c, r|].
  assert (Hne : line <> []) by (subst; discriminate).
  destruct (exists_last Hne) as (r' & c' & E').
  exists r', c'. split; [exact E'|].
  assert (Te : trimEnd line = line).
  { rewrite <- Ht at 2. symmetry. apply trim_no_leading_space.
    subst line. exact Hc. }
  unfold trimEnd in Te. rewrite E', rev_app_distr in Te. cbn [rev app] in Te.
  cbn [dropWhile] in Te. destruct (isWhiteSpace c') eqn:W; [|reflexivity].
  exfalso. apply (f_equal (@length _)) in Te.
  rewrite length_rev in Te.
  pose proof (length_takeWhile_le isWhiteSpace (rev r')) as L1.
  pose proof (f_equal (@length _)
                (takeWhile_dropWhile isWhiteSpace (rev r'))) as L2.
  rewrite !length_app, !length_rev in *. cbn [length] in *. lia.
Qed.

(** X6.  The text that [parseBody] returns is a fixed point: parsing the
    normalized text of a body gives the completion of the body itself,
    and a returned record is what its own [text] parses to. *)
Theorem parseBody_of_normalized_text (bodyText : jsstring) :
  parseBody (join newline (normalize bodyText)) = parseBody bodyText
  /\ forall b, parseBody bodyText = Return b ->
               parseBody (Body.text b) = Return b.
Proof.
  assert (H : parseBody (join newline (normalize bodyText))
              = parseBody bodyText)
    by (apply parseBody_normalize, normalize_join).
  split; [exact H|]. intros b Hb.
  pose proof Hb as Hf. apply parseBody_fields in Hf as (_ & -> & _).
  now rewrite H.
Qed.

Lemma contains_single (c : codeunit) (s : jsstring) :
  negb (indexOf [c] s 0 =? -1) = has c s.
Proof.
  rewrite indexOf_single_0. destruct (has c s); [|reflexivity].
  apply negb_true_iff, Z.eqb_neq.
  pose proof (len_nonneg (before c s)). lia.
Qed.

Lemma containsLine_find (lines : list jsstring) (c : codeunit) :
  containsLine lines [c] = find (has c) lines.
Proof.
  unfold containsLine. induction lines as [|l lines IH]; cbn [find];
    [reflexivity|].
  now rewrite contains_single, IH.
Qed.

(** X7.  [containsLine] gives the first line in which the character
    occurs, and [null] exactly when it occurs in none. *)
Theorem containsLine_first (lines : list jsstring) (c : codeunit) :
  (forall line,
      containsLine lines [c] = Some line
      <-> exists pre post,
          lines = pre ++ line :: post /\ In c line
          /\ forall x, In x pre -> ~ In c x)
  /\ (containsLine lines [c] = None <-> forall x, In x lines -> ~ In c x).
Proof.
  rewrite containsLine_find.
  assert (Hhas : forall s, has c s = true <-> In c s).
  { intros s. unfold has. rewrite existsb_exists. split.
    - intros (x & Hx & E). apply N.eqb_eq in E. now subst.
    - intros H. exists c. split; [exact H | apply N.eqb_refl]. }
  assert (Hnot : forall s, has c s = false <-> ~ In c s).
  { intros s. rewrite <- Hhas. now destruct (has c s). }
  split.
  - intros line. split.
    + intros H. apply find_split in H as (pre & post & E & Hl & Hpre).
      exists pre, post. split; [exact E|]. split; [now apply Hhas|].
      intros x Hx. apply Hnot. now apply Hpre.
    + intros (pre & post & -> & Hl & Hpre). apply find_first.
      * now apply Hhas.
      * intros x Hx. apply Hnot. now apply Hpre.
  - rewrite find_none_iff. split; intros H x Hx; apply Hnot; now apply H.
Qed.

(* ---------------------------------------------------------------- *)
(** *** The fields read on a line *)

Lemma before_not_in (c : codeunit) (s : jsstring) : ~ In c (before c s).
Proof.
  unfold before. induction s as [|x s IH]; cbn [takeWhile]; [intros []|].
  destruct (N.eqb x c) eqn:E; cbn [negb]; [intros []|].
  intros [->|H]; [now rewrite N.eqb_refl in E | now apply IH].
Qed.

Lemma has_false_before (c : codeunit) (s : jsstring) :
  has c s = false -> before c s = s.
Proof.
  unfold has, before. induction s as [|x s IH]; cbn [existsb takeWhile];
    [reflexivity|].
  rewrite (N.eqb_sym c x). destruct (N.eqb x c); cbn [orb negb];
    [discriminate|].
  intros H. now rewrite IH.
Qed.

Lemma skipn_S_tl {A : Type} (n : nat) (l : list A) :
  skipn (S n) l = tl (skipn n l).
Proof.
  revert l. induction n as [|n IH]; intros l.
  - destruct l; reflexivity.
  - destruct l as [|x l]; [reflexivity|]. cbn [skipn] in *. apply IH.
Qed.

Lemma skipn_after (c : codeunit) (s : jsstring) :
  skipn (S (length (before c s))) s = after c s.
Proof.
  rewrite skipn_S_tl. unfold before, after. now rewrite skipn_takeWhile.
Qed.

Lemma substring_to_end (s : jsstring) (a : Z) :
  0 <= a <= len s -> substring s a (len s) = skipn (Z.to_nat a) s.
Proof.
  intros H. rewrite substring_inside by lia.
  apply firstn_all2. rewrite length_skipn. unfold len in *. lia.
Qed.

Lemma readAfter_one (text : jsstring) (c : codeunit) :
  readAfter text [c]
  = if has c text then Some (trim (after c text)) else None.
Proof.
  unfold readAfter. cbv zeta. rewrite indexOf_single_0.
  destruct (has c text) eqn:H; [|reflexivity].
  pose proof (len_nonneg (before c text)) as Hn.
  replace (len (before c text) =? -1) with false
    by (symmetry; apply Z.eqb_neq; lia).
  pose proof (before_le_cut c text H) as Hlt.
  change (len [c]) with 1.
  rewrite substring_to_end by lia.
  replace (Z.to_nat (len (before c text) + 1))
    with (S (length (before c text))) by (unfold len; lia).
  now rewrite skipn_after.
Qed.

(** X8.  [readAfter] with a token of one character gives what follows
    its first occurrence, trimmed, and [null] when the text does not
    have it; the result has no white space at either end. *)
Theorem readAfter_single (text : jsstring) (c : codeunit) :
  readAfter text [c]
  = (if has c text then Some (trim (after c text)) else None)
  /\ forall v, readAfter text [c] = Some v -> trim v = v.
Proof.
  pose proof (readAfter_one text c) as E.
  split; [exact E|]. intros v. rewrite E.
  destruct (has c text); [|discriminate].
  intros H; injection H as <-. apply trim_idem.
Qed.

(** X9.  A currency, when [parseBody] sets one, has at least two
    characters, none of them a closing parenthesis, and stands on the
    amount line between an opening and a closing parenthesis, with no
    opening parenthesis before it on the line. *)
Theorem currency_invariant (bodyText : jsstring) (b : Body.t)
        (currency : jsstring) :
  parseBody bodyText = Return b ->
  Body.currency b = Some currency ->
  2 <= len currency
  /\ ~ In rparen currency
  /\ exists line pre post,
      amountLine bodyText = Some line
      /\ line = pre ++ [lparen] ++ currency ++ [rparen] ++ post
      /\ ~ In lparen pre.
Proof.
  intros Hb Hc.
  apply parseBody_fields in Hb as (_ & _ & _ & _ & _ & Hcur & _).
  rewrite Hc in Hcur.
  destruct (amountLine bodyText) as [line|]; [|discriminate].
  rewrite readCurrency_parenthesized in Hcur.
  destruct (has lparen line) eqn:H1; [|discriminate].
  destruct (has rparen (after lparen line)) eqn:H2; [|discriminate].
  cbn [andb] in Hcur.
  destruct (2 <=? len (parenthesized line)) eqn:H3; [|discriminate].
  injection Hcur as ->. apply Z.leb_le in H3.
  split; [exact H3|]. split; [apply before_not_in|].
  exists line, (before lparen line), (after rparen (after lparen line)).
  split; [reflexivity|]. split; [|apply before_not_in].
  rewrite (line_split_at _ _ H1) at 1.
  rewrite (line_split_at _ _ H2) at 1. reflexivity.
Qed.

(** X10.  The amount of a returned body is [null] exactly when no line
    has a [$] or no space follows the [$] of the amount line; a valid
    amount therefore needs a space after the [$]. *)
Theorem amount_null_iff (bodyText : jsstring) (b : Body.t) :
  parseBody bodyText = Return b ->
  (Body.amount b = None
   <-> amountLine bodyText = None
       \/ exists line, amountLine bodyText = Some line
                       /\ has space (after dollar line) = false)
  /\ (Body.is_valid_amount b = true ->
      exists line, amountLine bodyText = Some line
                   /\ has space (after dollar line) = true).
Proof.
  intros Hb.
  apply parseBody_fields in Hb as (_ & _ & _ & _ & Ha & _ & Hv).
  assert (R : forall line, amountLine bodyText = Some line ->
              (readAmount line = None
               <-> has space (after dollar line) = false)).
  { intros line Hl. rewrite readAmount_amountOfLine.
    unfold amountOfLine, primaryAmount.
    rewrite (amountLine_has_dollar _ _ Hl). cbn [andb].
    destruct (has space (after dollar line)).
    - destruct (Number_isNaN _); [destruct (fallbackAmount line)|];
        split; discriminate.
    - split; reflexivity. }
  rewrite Hv, Ha.
  destruct (amountLine bodyText) as [line|] eqn:Hl.
  - specialize (R line eq_refl). split.
    + split.
      * intros H. right. exists line. split; [reflexivity | now apply R].
      * intros [H|(l & H & Hs)]; [discriminate|].
        injection H as <-. now apply R.
    + intros V. exists line. split; [reflexivity|].
      destruct (has space (after dollar line)); [reflexivity|].
      rewrite (proj2 R eq_refl) in V. discriminate V.
  - split; [split; [now left | reflexivity] | discriminate].
Qed.

Lemma takeWhile_Forall {A : Type} (p : A -> bool) (l : list A) (x : A) :
  In x (takeWhile p l) -> p x = true.
Proof.
  induction l as [|y l IH]; cbn [takeWhile]; [intros []|].
  destruct (p y) eqn:E; [|intros []].
  intros [<-|H]; [exact E | now apply IH].
Qed.

Lemma takeWhile_all {A : Type} (p : A -> bool) (l : list A) :
  (forall x, In x l -> p x = true) -> takeWhile p l = l.
Proof.
  induction l as [|y l IH]; intros H; cbn [takeWhile]; [reflexivity|].
  rewrite (H y) by (now left). rewrite IH; [reflexivity|].
  intros x Hx. apply H. now right.
Qed.

Lemma removelast_prefix {A : Type} (l : list A) :
  exists suffix, l = removelast l ++ suffix
                 /\ (l <> [] -> length suffix = 1%nat).
Proof.
  destruct l as [|x l]; [exists []; split; [reflexivity | congruence]|].
  destruct (exists_last (l := x :: l)) as (r & c & E); [discriminate|].
  rewrite E, removelast_last. exists [c]. split; reflexivity.
Qed.

(** X11.  The sender name is a proper prefix of the second line, made of
    characters that are their own upper-cased form; when every
    character of that line is, the name is the line without its last
    character (and the white space this uncovers). *)
Theorem from_name_prefix (bodyText line : jsstring) (b : Body.t) :
  nth_error (normalize bodyText) 1 = Some line ->
  parseBody bodyText = Return b ->
  (exists rest, line = Body.from_name b ++ rest /\ rest <> [])
  /\ (forall c, In c (Body.from_name b) -> ownUpperCase c = true)
  /\ ((forall c, In c line -> ownUpperCase c = true) ->
      Body.from_name b = trimEnd (removelast line)).
Proof.
  intros Hn Hb.
  pose proof (readUpperCase_senderName _ _ (nth_error_In _ _ Hn)) as Hr.
  destruct (normalize_line _ _ (nth_error_In _ _ Hn)) as (c0 & r0 & El & _).
  apply parseBody_fields in Hb as [(fromLine & Hn' & Hf) _].
  rewrite Hn in Hn'. injection Hn' as <-.
  unfold readUpperCase in Hr. cbv zeta in Hr. injection Hr as Hr.
  rewrite Hf, Hr. unfold senderName.
  set (run := takeWhile ownUpperCase line).
  destruct (trimEnd_prefix (removelast run)) as [s1 E1].
  destruct (removelast_prefix run) as (s2 & E2 & L2).
  pose proof (takeWhile_dropWhile ownUpperCase line) as E3. fold run in E3.
  split; [|split].
  - exists (s1 ++ s2 ++ dropWhile ownUpperCase line). split.
    + transitivity (run ++ dropWhile ownUpperCase line); [now symmetry|].
      rewrite app_assoc, app_assoc, <- E1, <- E2. reflexivity.
    + destruct run as [|x run'] eqn:Er.
      * cbn [app] in E3. rewrite E3, El.
        intros H. apply app_eq_nil in H as [_ H].
        apply app_eq_nil in H as [_ H]. discriminate H.
      * intros H. apply app_eq_nil in H as [_ H].
        apply app_eq_nil in H as [H _].
        specialize (L2 ltac:(discriminate)). subst s2. discriminate L2.
  - intros c Hc. apply (takeWhile_Forall ownUpperCase line). fold run.
    rewrite E2. apply in_or_app. left.
    rewrite E1. apply in_or_app. now left.
  - intros Hall. unfold run. now rewrite takeWhile_all.
Qed.

(* ---------------------------------------------------------------- *)
(** *** The record *)

(** The messages that [validate] collects, each with its check. *)
Lemma validate_In (subject : Subject.t) (body : Body.t) (m : jsstring) :
  In m (validate subject body)
  <-> (m = errSubject /\ Subject.is_email_transfer subject = false)
      \/ (m = errAmountPrefix ++ ToString (Body.amount body)
          /\ Body.is_valid_amount body = false)
      \/ (m = errLanguage
          /\ language_eqb (Subject.language subject) (Body.language body)
             = false)
      \/ (m = errAutoDeposit
          /\ Bool.eqb (Subject.is_auto_deposit subject)
                      (Body.is_auto_deposit body) = false).
Proof.
  unfold validate, push. cbv zeta.
  destruct (Subject.is_email_transfer subject);
    destruct (Body.is_valid_amount body);
    destruct (language_eqb (Subject.language subject) (Body.language body));
    destruct (Bool.eqb (Subject.is_auto_deposit subject)
                       (Body.is_auto_deposit body));
    cbn [app negb In]; intuition congruence.
Qed.

Lemma amount_message_prefix (x : jsstring) :
  startsWith errAmountPrefix (errAmountPrefix ++ x) = true.
Proof. reflexivity. Qed.

(** The subject, the body and the record of a message that [parse]
    returns. *)
Lemma parse_parts (email : Email.t) (r : Result.t) :
  parse email = Return r ->
  exists b,
    parseBody (Email.text email) = Return b
    /\ errorList r = validate (parseSubject (Email.subject email)) b
    /\ Subject.is_email_transfer (parseSubject (Email.subject email))
       = subjectRecognized email
    /\ Subject.is_auto_deposit (parseSubject (Email.subject email))
       = subjectAutoDeposit email
    /\ Body.is_auto_deposit b = bodyAutoDeposit email
    /\ Subject.language (parseSubject (Email.subject email))
       = subjectLanguage email
    /\ Body.language b = bodyLanguage email
    /\ Body.is_valid_amount b = validAmount (Body.amount b).
Proof.
  intros H. pose proof H as H'.
  apply parse_fields in H' as (b & Hb & _).
  exists b. split; [exact Hb|].
  split; [exact (parse_errorList _ _ _ H Hb)|].
  apply parseBody_fields in Hb as (_ & Htext & Hlang & Hauto & _ & _ & Hv).
  rewrite Htext in Hlang, Hauto.
  cbn [parseSubject Subject.is_email_transfer Subject.is_auto_deposit
       Subject.language].
  unfold subjectRecognized, subjectAutoDeposit, bodyAutoDeposit.
  rewrite <- !find_existsb.
  repeat split; try assumption.
Qed.

Lemma errors_errorList (r : Result.t) (email : Email.t) :
  parse email = Return r ->
  (Result.errors r = None <-> errorList r = []).
Proof.
  intros H. apply parse_fields in H as (b & _ & He & _).
  unfold errorList. rewrite He. cbv zeta.
  destruct (validate (parseSubject (Email.subject email)) b);
    cbn [length Z.of_nat Z.ltb Z.compare]; split; congruence.
Qed.

Lemma nil_iff_no_element {A : Type} (l : list A) :
  l = [] <-> forall x, ~ In x l.
Proof.
  split; [intros -> x []|]. destruct l as [|y l]; [reflexivity|].
  intros H. elim (H y). now left.
Qed.

(** X12.  A returned record has no errors exactly when the four checks
    pass: the subject is recognized, the amount is valid, and the subject
    and the body agree on the language and on the automatic deposit.
    Such a record is a recognized transfer whose language was detected
    in both. *)
Theorem errors_null_iff (email : Email.t) (r : Result.t) :
  parse email = Return r ->
  exists b,
    parseBody (Email.text email) = Return b
    /\ (Result.errors r = None
        <-> subjectRecognized email = true
            /\ Body.is_valid_amount b = true
            /\ subjectLanguage email = bodyLanguage email
            /\ subjectAutoDeposit email = bodyAutoDeposit email)
    /\ (Result.errors r = None ->
        Result.isEmailTransfer r = true
        /\ exists language,
            Result.language r = Some language
            /\ subjectLanguage email = Some language
            /\ bodyLanguage email = Some language).
Proof.
  intros H. pose proof (errors_errorList _ _ H) as He.
  pose proof H as H1. apply parse_parts in H1
    as (b & Hb & Hl & Ht & Hsa & Hba & Hsl & Hbl & _).
  pose proof H as H2. apply parse_fields in H2
    as (b' & Hb' & _ & Hlang & _ & Htr & _).
  rewrite Hb in Hb'. injection Hb' as <-.
  exists b. split; [exact Hb|].
  assert (I : Result.errors r = None
              <-> subjectRecognized email = true
                  /\ Body.is_valid_amount b = true
                  /\ subjectLanguage email = bodyLanguage email
                  /\ subjectAutoDeposit email = bodyAutoDeposit email).
  { rewrite He, nil_iff_no_element, Hl.
    rewrite <- Ht, <- Hsa, <- Hba, <- Hsl, <- Hbl, <- language_eqb_eq.
    split.
    - intros N.
      destruct (Subject.is_email_transfer _) eqn:E1;
        [|elim (N errSubject); apply validate_In; tauto].
      destruct (Body.is_valid_amount b) eqn:E2;
        [|elim (N (errAmountPrefix ++ ToString (Body.amount b)));
          apply validate_In; tauto].
      destruct (language_eqb _ _) eqn:E3;
        [|elim (N errLanguage); apply validate_In; tauto].
      destruct (Bool.eqb (Subject.is_auto_deposit
                  (parseSubject (Email.subject email)))
                  (Body.is_auto_deposit b)) eqn:E4;
        [|elim (N errAutoDeposit); apply validate_In; tauto].
      apply Bool.eqb_prop in E4. tauto.
    - intros (E1 & E2 & E3 & E4) m Hm. apply validate_In in Hm.
      rewrite E1, E2, E3, E4, Bool.eqb_reflx in Hm.
      intuition congruence. }
  split; [exact I|]. intros N. apply I in N as (E1 & E2 & E3 & _).
  rewrite Htr, Ht, E1, E2. split; [reflexivity|].
  rewrite Hlang, Hsl, Hbl.
  unfold subjectRecognized in E1. rewrite <- find_existsb in E1.
  fold (tokenStarts (toLowerCase (Email.subject email)) subject_start) in E1.
  fold (subjectLanguage email) in E1.
  destruct (subjectLanguage email) as [language|] eqn:Es; [|discriminate].
  exists language. rewrite <- E3. repeat split.
Qed.

(** X13.  [isEmailTransfer] is true exactly when the errors have neither
    the message of the subject nor a message of the amount. *)
Theorem transfer_iff_no_error (email : Email.t) (r : Result.t) :
  parse email = Return r ->
  (Result.isEmailTransfer r = true
   <-> ~ In errSubject (errorList r)
       /\ forall m, In m (errorList r) ->
                    startsWith errAmountPrefix m = false).
Proof.
  intros H. pose proof H as H1.
  apply parse_parts in H1 as (b & Hb & Hl & _).
  apply parse_fields in H as (b' & Hb' & _ & _ & _ & Htr & _).
  rewrite Hb in Hb'. injection Hb' as <-.
  rewrite Htr, Hl, andb_true_iff. split.
  - intros [E1 E2]. split.
    + intros Hm. apply validate_In in Hm. rewrite E1, E2 in Hm.
      destruct Hm as [[_ Hm]|[[_ Hm]|[[Hm _]|[Hm _]]]]; discriminate Hm.
    + intros m Hm. apply validate_In in Hm. rewrite E1, E2 in Hm.
      destruct Hm as [[_ Hm]|[[_ Hm]|[[-> _]|[-> _]]]];
        try discriminate Hm; reflexivity.
  - intros [N1 N2]. split.
    + destruct (Subject.is_email_transfer _) eqn:E; [reflexivity|].
      elim N1. apply validate_In. tauto.
    + destruct (Body.is_valid_amount b) eqn:E; [reflexivity|].
      assert (Hm : In (errAmountPrefix ++ ToString (Body.amount b))
                      (validate (parseSubject (Email.subject email)) b))
        by (apply validate_In; tauto).
      apply N2 in Hm. rewrite amount_message_prefix in Hm. discriminate Hm.
Qed.

(** X14.  A message of the amount in the errors of a returned record
    ends with [null] or with [NaN], the amount of the record being
    [null] or [NaN] accordingly: no other number is ever rendered. *)
Theorem amount_error_text (email : Email.t) (r : Result.t) (m : jsstring) :
  parse email = Return r ->
  In m (errorList r) ->
  startsWith errAmountPrefix m = true ->
  (Result.amount r = None /\ m = errAmountPrefix ++ lit "null")
  \/ (Result.amount r = Some NaN /\ m = errAmountPrefix ++ lit "NaN").
Proof.
  intros H Hm Hp. pose proof H as H1.
  apply parse_parts in H1 as (b & Hb & Hl & _ & _ & _ & _ & _ & Hv).
  apply parse_fields in H as (b' & Hb' & _ & _ & _ & _ & Ha & _).
  rewrite Hb in Hb'. injection Hb' as <-.
  rewrite Hl in Hm. apply validate_In in Hm.
  destruct Hm as [[-> _]|[[-> E]|[[-> _]|[-> _]]]]; try discriminate Hp.
  rewrite Hv in E. rewrite Ha.
  rewrite (invalid_amount_rendering _ E).
  destruct (Body.amount b) as [x|]; [right | left; split; reflexivity].
  cbn [validAmount] in E. destruct x; try discriminate E.
  split; reflexivity.
Qed.

(** X15.  The errors of a returned record have the message of the
    automatic deposit exactly when the subject and the body disagree on
    it, and then [isAutoDeposit] is false; [isAutoDeposit] is true only
    when both claim it. *)
Theorem auto_deposit_error (email : Email.t) (r : Result.t) :
  parse email = Return r ->
  (In errAutoDeposit (errorList r)
   <-> subjectAutoDeposit email <> bodyAutoDeposit email)
  /\ (In errAutoDeposit (errorList r) -> Result.isAutoDeposit r = false)
  /\ (Result.isAutoDeposit r = true
      <-> subjectAutoDeposit email = true /\ bodyAutoDeposit email = true).
Proof.
  intros H. pose proof H as H1.
  apply parse_parts in H1 as (b & Hb & Hl & _ & Hsa & Hba & _).
  apply parse_fields in H as (b' & Hb' & _ & _ & Had & _).
  rewrite Hb in Hb'. injection Hb' as <-.
  rewrite Had, Hl, Hsa, Hba.
  assert (I : In errAutoDeposit (validate (parseSubject (Email.subject email))
                                          b)
              <-> subjectAutoDeposit email <> bodyAutoDeposit email).
  { rewrite validate_In, Hsa, Hba.
    destruct (subjectAutoDeposit email), (bodyAutoDeposit email);
      cbn [Bool.eqb]; split; intros G; try congruence;
      try (destruct G as [[G _]|[[G _]|[[G _]|[_ G]]]]; discriminate G);
      right; right; right; split; reflexivity. }
  split; [exact I|]. split.
  - intros G. apply I in G.
    destruct (subjectAutoDeposit email), (bodyAutoDeposit email);
      try reflexivity; now elim G.
  - rewrite andb_true_iff. tauto.
Qed.

(** X16.  Without the message of the language mismatch in its errors, a
    returned record has the language that the subject and the body both
    detected; the language of a record is [null] exactly when neither
    detected one. *)
Theorem language_agreement (email : Email.t) (r : Result.t) :
  parse email = Return r ->
  (~ In errLanguage (errorList r) ->
   Result.language r = subjectLanguage email
   /\ Result.language r = bodyLanguage email)
  /\ (Result.language r = None
      <-> subjectLanguage email = None /\ bodyLanguage email = None).
Proof.
  intros H. pose proof H as H1.
  apply parse_parts in H1 as (b & Hb & Hl & _ & _ & _ & Hsl & Hbl & _).
  apply parse_fields in H as (b' & Hb' & _ & Hlang & _).
  rewrite Hb in Hb'. injection Hb' as <-.
  rewrite Hlang, Hl, Hsl, Hbl. split.
  - intros N. rewrite validate_language, Hsl, Hbl in N.
    assert (E : subjectLanguage email = bodyLanguage email).
    { destruct (subjectLanguage email) as [[]|],
        (bodyLanguage email) as [[]|]; try reflexivity;
        elim N; discriminate. }
    rewrite E. destruct (bodyLanguage email); split; reflexivity.
  - destruct (bodyLanguage email), (subjectLanguage email);
      split; intros G; try tauto; try discriminate G;
      destruct G; discriminate.
Qed.

Lemma parseBody_outcome (bodyText : jsstring) :
  (parseBody bodyText = Throw TypeError
   <-> (length (normalize bodyText) < 2)%nat)
  /\ ((exists b, parseBody bodyText = Return b)
      <-> (2 <= length (normalize bodyText))%nat).
Proof.
  destruct (nth_error (normalize bodyText) 1) as [l|] eqn:E.
  - assert (L : (2 <= length (normalize bodyText))%nat)
      by (apply nth_error_Some; congruence).
    destruct (parseBody_returns _ _ E) as [b Hb]. split; split.
    + rewrite Hb. discriminate.
    + lia.
    + intros _. exact L.
    + intros _. now exists b.
  - assert (L : (length (normalize bodyText) < 2)%nat)
      by (apply nth_error_None in E; lia).
    pose proof (parseBody_throws _ E) as Hb. split; split.
    + intros _. exact L.
    + intros _. exact Hb.
    + intros [b Hb']. congruence.
    + lia.
Qed.

(** X17.  On a message whose text or subject may be missing,
    [parse] raises a [TypeError] exactly when the text is missing, the
    subject is missing, or the body has fewer than two lines that are
    not blank, and returns a record exactly when both are strings and
    the body has two such lines: the recipient slots never make it
    fail. *)
Theorem parseMessage_outcome (m : Message.t) :
  (parseMessage m = Throw TypeError
   <-> Message.text m = None
       \/ Message.subject m = None
       \/ exists bodyText,
           Message.text m = Some bodyText
           /\ (length (normalize bodyText) < 2)%nat)
  /\ ((exists r, parseMessage m = Return r)
      <-> exists bodyText subject,
          Message.text m = Some bodyText
          /\ Message.subject m = Some subject
          /\ (2 <= length (normalize bodyText))%nat).
Proof.
  unfold parseMessage.
  destruct (Message.text m) as [bodyText|] eqn:Et.
  2:{ split; split.
      - intros _. now left.
      - reflexivity.
      - intros [r H]. discriminate H.
      - intros (t & s & H & _). discriminate H. }
  destruct (parseBody_outcome bodyText) as [T R].
  destruct (Message.subject m) as [subject|] eqn:Es.
  - pose proof (parse_returns_iff (Message.toEmail m bodyText subject)) as P.
    cbn [Message.toEmail Email.text] in P.
    split; split.
    + intros H. right. right. exists bodyText. split; [reflexivity|].
      destruct (Nat.lt_ge_cases (length (normalize bodyText)) 2)
        as [L|L]; [exact L|].
      apply P in L as [r Hr]. congruence.
    + intros [H|[H|(t & H & L)]]; try discriminate H.
      injection H as <-. unfold parse. cbv zeta.
      cbn [Message.toEmail Email.text].
      rewrite (proj2 T L). reflexivity.
    + intros H. exists bodyText, subject. repeat split. now apply P.
    + intros (t & s & Ht & _ & L). injection Ht as <-. now apply P.
  - split; split.
    + intros _. right. now left.
    + intros _. destruct (parseBody bodyText) as [b|[]]; reflexivity.
    + intros [r H]. destruct (parseBody bodyText) as [b|e];
        discriminate H.
    + intros (t & s & _ & H & _). discriminate H.
Qed.

Lemma tokenStartsLine_message (lines : list jsstring) :
  tokenStartsLine lines message = find (lineStarts en message) lines.
Proof.
  unfold tokenStartsLine, languages, lineStarts.
  cbn [tokenStartsLine_in]. unfold startsLine. cbn [Tokens].
  now destruct (find _ lines).
Qed.

Lemma tokenStartsLine_In (lines : list jsstring) (token : Token)
      (line : jsstring) :
  tokenStartsLine lines token = Some line -> In line lines.
Proof.
  unfold tokenStartsLine, languages. cbn [tokenStartsLine_in].
  unfold startsLine.
  destruct (find (fun l => startsWith (Tokens en token) (toLowerCase l))
                 lines) eqn:E1.
  - intros H; injection H as <-. exact (proj1 (find_some _ _ E1)).
  - destruct (find (fun l => startsWith (Tokens fr token) (toLowerCase l))
                   lines) eqn:E2; [|discriminate].
    intros H; injection H as <-. exact (proj1 (find_some _ _ E2)).
Qed.

(** The field that [parseBody] reads after the colon of a line. *)
Lemma field_after_colon (bodyText : jsstring) (found : option jsstring) :
  (forall line, found = Some line -> In line (normalize bodyText)) ->
  (if truthy found
   then match found with
        | Some l => readAfter l (lit ":")
        | None => None
        end
   else None)
  = match found with
    | Some line =>
        if has colon line then Some (trim (after colon line)) else None
    | None => None
    end.
Proof.
  intros H. destruct found as [line|]; [|reflexivity].
  destruct (normalize_line _ _ (H line eq_refl)) as (c & r & -> & _).
  cbn [truthy]. change (lit ":") with [colon].
  exact (readAfter_one (c :: r) colon).
Qed.

Lemma parseBody_message_reference (bodyText : jsstring) (b : Body.t) :
  parseBody bodyText = Return b ->
  Body.message b
  = (let messageLine := tokenStartsLine (normalize bodyText) message in
     if truthy messageLine
     then match messageLine with
          | Some l => readAfter l (lit ":")
          | None => None
          end
     else None)
  /\ Body.reference b
     = (let referenceLine := tokenStartsLine (normalize bodyText) reference in
        if truthy referenceLine
        then match referenceLine with
             | Some l => readAfter l (lit ":")
             | None => None
             end
        else None).
Proof.
  unfold parseBody. cbv zeta.
  destruct (nth_error (normalize bodyText) 1) as [fromLine|];
    cbn [readUpperCase bind]; [|discriminate].
  destruct (containsLine (normalize bodyText) (lit "$")) as [[|c l]|];
    intros H; injection H as <-; split; reflexivity.
Qed.

(** X18.  The message of a returned body is read on the first line whose
    lower-cased text starts with [message]: it is what follows the first
    colon of that line, trimmed, and [null] when there is no such line
    or no colon on it.  The reference is read in the same way on the
    line that [tokenStartsLine] gives for [reference]. *)
Theorem message_and_reference (bodyText : jsstring) (b : Body.t) :
  parseBody bodyText = Return b ->
  Body.message b
  = match find (lineStarts en message) (normalize bodyText) with
    | Some line =>
        if has colon line then Some (trim (after colon line)) else None
    | None => None
    end
  /\ Body.reference b
     = match tokenStartsLine (normalize bodyText) reference with
       | Some line =>
           if has colon line then Some (trim (after colon line)) else None
       | None => None
       end.
Proof.
  intros Hb. apply parseBody_message_reference in Hb as [Hm Hr].
  cbv zeta in Hm, Hr. split.
  - rewrite Hm.
    rewrite (field_after_colon bodyText
               (tokenStartsLine (normalize bodyText) message)
               (fun line => tokenStartsLine_In _ _ line)).
    now rewrite tokenStartsLine_message.
  - rewrite Hr.
    exact (field_after_colon bodyText
             (tokenStartsLine (normalize bodyText) reference)
             (fun line => tokenStartsLine_In _ _ line)).
Qed.

End Parser.

(* ================================================================== *)
(** ** The parser on the sample messages

    The closed statements below run the model with the ASCII case
    mappings, which agree with the runtime on the sample messages. *)

(** The rendering of a number does not matter to [parse]: the only
    amounts it renders are [null] and [NaN]. *)
Lemma parse_rendering_irrelevant
      (toLowerCase toUpperCase : jsstring -> jsstring)
      (render1 render2 : number -> jsstring) (email : Email.t) :
  parse toLowerCase toUpperCase render1 email
  = parse toLowerCase toUpperCase render2 email.
Proof.
  unfold parse. cbv zeta.
  destruct (parseBody toLowerCase toUpperCase (Email.text email)) as [b|e]
    eqn:Hb; cbn [bind]; [|reflexivity].
  apply parseBody_fields in Hb as (_ & _ & _ & _ & _ & _ & Hv).
  assert (E : forall s,
             validate render1 s b = validate render2 s b).
  { intros s. unfold validate. cbv zeta.
    destruct (Body.is_valid_amount b) eqn:V; cbn [negb]; [reflexivity|].
    symmetry in Hv.
    now rewrite !(invalid_amount_rendering _ _ Hv). }
  now rewrite E.
Qed.

(** C1: the README message has the currency [CAD]. *)
Lemma currency_between_parentheses_README :
  exists b,
    parseBody toLowerCase_ascii toUpperCase_ascii bodyA = Return b
    /\ amountLine bodyA = Some lineA
    /\ has lparen lineA = true
    /\ has rparen (after lparen lineA) = true
    /\ Body.currency b = Some (lit "CAD").
Proof.
  eexists. split; [reflexivity|].
  split; [reflexivity|]. split; [reflexivity|]. split; [reflexivity|].
  rewrite (currency_between_parentheses toLowerCase_ascii toUpperCase_ascii
             bodyA _ lineA eq_refl eq_refl eq_refl eq_refl).
  reflexivity.
Defined.

(** C1, as stated, fails on a two-letter code: what stands between the
    parentheses of the amount line has fewer than 3 characters, and the
    currency is set. *)
Lemma currency_of_two_letters :
  exists b,
    parseBody toLowerCase_ascii toUpperCase_ascii bodyCA = Return b
    /\ amountLine bodyCA = Some lineCA
    /\ has lparen lineCA = true
    /\ has rparen (after lparen lineCA) = true
    /\ parenthesized lineCA = lit "CA"
    /\ len (parenthesized lineCA) < 3
    /\ Body.currency b = Some (lit "CA")
    /\ Body.currency b <> None.
Proof.
  eexists. split; [reflexivity|].
  repeat split; discriminate.
Qed.

(** C3: the amount of the README message is a number and is valid. *)
Lemma valid_amount_README :
  exists b,
    parseBody toLowerCase_ascii toUpperCase_ascii bodyA = Return b
    /\ Body.amount b = Some (S754_finite false 5910974510923776 (-50))
    /\ Body.is_valid_amount b = true.
Proof.
  eexists. split; [reflexivity|]. split; [reflexivity|].
  apply (proj2 (valid_amount_iff_not_NaN toLowerCase_ascii toUpperCase_ascii
                  bodyA _ eq_refl)).
  eexists. split; reflexivity.
Defined.

(** C3, as stated, fails on an infinite amount: the flag is true and the
    amount is not a finite number. *)
Lemma valid_amount_not_finite :
  exists b x,
    parseBody toLowerCase_ascii toUpperCase_ascii bodyInfinity = Return b
    /\ Body.is_valid_amount b = true
    /\ Body.amount b = Some x
    /\ x = Infinity
    /\ Number_isFinite x = false.
Proof.
  eexists. eexists. split; [reflexivity|]. repeat split.
Qed.

(** C4: the French message, whose amount precedes the [$], is read by
    the fallback strategy; an amount that ends its line is not read. *)
Lemma amount_by_two_strategies_French :
  (exists b,
      parseBody toLowerCase_ascii toUpperCase_ascii bodyFr = Return b
      /\ amountLine bodyFr = Some lineFr
      /\ has space (after dollar lineFr) = true
      /\ Body.amount b = Some (S754_finite false 5910974510923776 (-50)))
  /\ (exists b,
        parseBody toLowerCase_ascii toUpperCase_ascii bodyAmountLast
        = Return b
        /\ amountLine bodyAmountLast = Some lineAmountLast
        /\ has space (after dollar lineAmountLast) = false
        /\ existsb isDigit lineAmountLast
           && has space (fromDigit lineAmountLast) = false
        /\ Body.amount b = None).
Proof.
  split.
  - eexists. split; [reflexivity|]. split; [reflexivity|].
    split; [reflexivity|].
    rewrite (proj1 (proj2 (amount_by_two_strategies toLowerCase_ascii
                             toUpperCase_ascii bodyFr _ lineFr
                             eq_refl eq_refl)) eq_refl).
    reflexivity.
  - eexists. split; [reflexivity|]. split; [reflexivity|].
    split; [reflexivity|]. split; [reflexivity|].
    exact (proj2 (proj2 (amount_by_two_strategies toLowerCase_ascii
                           toUpperCase_ascii bodyAmountLast _ lineAmountLast
                           eq_refl eq_refl)) eq_refl eq_refl).
Defined.

(** C4, as stated, fails when the amount ends its line: no space follows
    the [$], and the amount is [null], not a number read on the line. *)
Lemma amount_at_end_of_line :
  exists b,
    parseBody toLowerCase_ascii toUpperCase_ascii bodyAmountLast = Return b
    /\ amountLine bodyAmountLast = Some lineAmountLast
    /\ after dollar lineAmountLast = lit "5.25"
    /\ Body.amount b = None
    /\ ~ (exists s, Body.amount b = Some (parseFloat s)).
Proof.
  eexists. split; [reflexivity|]. repeat split.
  intros [s H]. discriminate H.
Qed.

(** When the primary value is [NaN] and the line has no digit, the amount
    stays [NaN]. *)
Lemma amount_without_digit :
  exists b,
    parseBody toLowerCase_ascii toUpperCase_ascii bodyNoDigit = Return b
    /\ amountLine bodyNoDigit = Some lineNoDigit
    /\ Body.amount b = Some NaN
    /\ Body.is_valid_amount b = false.
Proof.
  eexists. split; [reflexivity|]. repeat split.
Qed.

(** C8: the sender of the README message. *)
Lemma sender_name_README :
  nth_error (normalize bodyA) 1 = Some lineA
  /\ exists b,
      parseBody toLowerCase_ascii toUpperCase_ascii bodyA = Return b
      /\ Body.from_name b = lit "SAMPLE TENANT".
Proof.
  split; [reflexivity|].
  destruct (sender_name_of_second_line toLowerCase_ascii toUpperCase_ascii
              bodyA lineA eq_refl) as (b & Hb & Hf).
  exists b. split; [exact Hb|]. rewrite Hf. reflexivity.
Defined.

(** C5: the errors of a message without amount. *)
Lemma errors_null_or_distinct_no_amount :
  exists r,
    parse toLowerCase_ascii toUpperCase_ascii NumberToString_nondigit
          emailNoAmount = Return r
    /\ match Result.errors r with
       | None => True
       | Some l => l <> [] /\ (1 <= length l)%nat /\ NoDup l
       end.
Proof.
  eexists. split; [reflexivity|].
  exact (errors_null_or_distinct toLowerCase_ascii toUpperCase_ascii
           NumberToString_nondigit emailNoAmount _ eq_refl).
Defined.

(** C6: the derived fields of the README message. *)
Lemma derived_fields_README :
  exists r,
    parse toLowerCase_ascii toUpperCase_ascii NumberToString_nondigit emailA
    = Return r
    /\ Result.language r = Some en
    /\ Result.isAutoDeposit r = true
    /\ Result.isEmailTransfer r = true
    /\ Result.errors r = None.
Proof.
  eexists. split; [reflexivity|].
  destruct (derived_fields toLowerCase_ascii toUpperCase_ascii
              NumberToString_nondigit emailA _ eq_refl)
    as (b & Hb & Hl & Ha & Ht).
  rewrite Hl, Ha, Ht. injection Hb as <-. repeat split.
Defined.

(** C7: an English subject on a French body. *)
Lemma language_mismatch_error_mixed :
  exists r,
    parse toLowerCase_ascii toUpperCase_ascii NumberToString_nondigit
          emailMixed = Return r
    /\ subjectLanguage toLowerCase_ascii emailMixed = Some en
    /\ bodyLanguage toLowerCase_ascii emailMixed = Some fr
    /\ In errLanguage (errorList r).
Proof.
  eexists. split; [reflexivity|]. split; [reflexivity|].
  split; [reflexivity|].
  apply (proj1 (language_mismatch_error toLowerCase_ascii toUpperCase_ascii
                  NumberToString_nondigit emailMixed _ eq_refl)).
  discriminate.
Defined.

(** C10: the three errors of a message without amount. *)
Lemma errors_subsequence_no_amount :
  exists r l,
    parse toLowerCase_ascii toUpperCase_ascii NumberToString_nondigit
          emailNoAmount = Return r
    /\ Result.errors r = Some l
    /\ l = [errSubject; errAmountPrefix ++ lit "null"; errLanguage]
    /\ Subsequence l (allErrors NumberToString_nondigit (Result.amount r))
    /\ (1 <= length l <= 4)%nat.
Proof.
  eexists. eexists. split; [reflexivity|]. split; [reflexivity|].
  split; [reflexivity|].
  destruct (errors_subsequence toLowerCase_ascii toUpperCase_ascii
              NumberToString_nondigit emailNoAmount _ _ eq_refl eq_refl)
    as (S & _ & _ & L).
  split; [exact S | exact L].
Defined.

(** C9: with a second line, a body without [$] gives the record of the
    specification. *)
Lemma no_amount_line_example :
  exists b r,
    parseBody toLowerCase_ascii toUpperCase_ascii bodyNoAmount = Return b
    /\ Body.amount b = None /\ Body.currency b = None
    /\ Body.is_valid_amount b = false
    /\ parse toLowerCase_ascii toUpperCase_ascii NumberToString_nondigit
             emailNoAmount = Return r
    /\ In (errAmountPrefix ++ lit "null") (errorList r).
Proof.
  exact (no_amount_line toLowerCase_ascii toUpperCase_ascii
           NumberToString_nondigit emailNoAmount _ eq_refl eq_refl).
Defined.

(** The French message: the language, the amount read after the comma is
    turned into a point, and the recognition of the transfer. *)
Lemma french_message :
  exists r,
    parse toLowerCase_ascii toUpperCase_ascii NumberToString_nondigit
          (emailOf subjectFr bodyFr) = Return r
    /\ Result.language r = Some fr
    /\ Result.amount r = Some (S754_finite false 5910974510923776 (-50))
    /\ Result.currency r = Some (lit "CAD")
    /\ Result.isAutoDeposit r = false
    /\ Result.isEmailTransfer r = true
    /\ Result.errors r = Some [errAutoDeposit].
Proof.
  eexists. split; [reflexivity|]. repeat split.
Qed.

(* ================================================================== *)
(** ** Further properties on the sample messages *)

(** X2: a French greeting. *)
Lemma tokenStarts_unambiguous_bonjour :
  startsWith (Tokens fr body_greetings) (lit "bonjour sample landlord,")
  = true
  /\ tokenStarts (lit "bonjour sample landlord,") body_greetings = Some fr.
Proof.
  split; [reflexivity|].
  apply (proj1 (tokenStarts_unambiguous (lit "bonjour sample landlord,")
                  body_greetings fr)); [discriminate | reflexivity].
Defined.

(** X3: the English reference line wins over the French one before it. *)
Lemma tokenStartsLine_priority_reference :
  lineStarts toLowerCase_ascii fr reference lineReferenceFr = true
  /\ lineStarts toLowerCase_ascii en reference lineReferenceEn = true
  /\ tokenStartsLine toLowerCase_ascii [lineReferenceFr; lineReferenceEn]
                     reference
     = Some lineReferenceEn.
Proof.
  split; [reflexivity|]. split; [reflexivity|].
  apply (proj1 (tokenStartsLine_priority toLowerCase_ascii
                  [lineReferenceFr; lineReferenceEn] reference)
           [lineReferenceFr] lineReferenceEn [] eq_refl eq_refl).
  intros x [<-|[]]. reflexivity.
Defined.

(** X5: the amount line of the README message. *)
Lemma normalize_lines_README :
  In lineA (normalize bodyA)
  /\ lineA <> [] /\ trim lineA = lineA /\ ~ In 10%N lineA.
Proof.
  assert (H : In lineA (normalize bodyA)) by (right; left; reflexivity).
  split; [exact H|].
  destruct (normalize_lines bodyA lineA H) as (H1 & H2 & H3 & _).
  repeat split; assumption.
Defined.

(** X6: the README message, which ends with a line feed that its
    normalized text has not. *)
Lemma parseBody_of_normalized_text_README :
  exists b,
    parseBody toLowerCase_ascii toUpperCase_ascii bodyA = Return b
    /\ Body.text b <> bodyA
    /\ parseBody toLowerCase_ascii toUpperCase_ascii (Body.text b)
       = Return b.
Proof.
  eexists. split; [reflexivity|]. split.
  - intros H. apply (f_equal (@length _)) in H. vm_compute in H.
    discriminate H.
  - exact (proj2 (parseBody_of_normalized_text toLowerCase_ascii
                    toUpperCase_ascii bodyA) _ eq_refl).
Defined.

(** X9: the currency of the README message. *)
Lemma currency_invariant_README :
  exists b,
    parseBody toLowerCase_ascii toUpperCase_ascii bodyA = Return b
    /\ Body.currency b = Some (lit "CAD")
    /\ 2 <= len (lit "CAD") /\ ~ In rparen (lit "CAD").
Proof.
  eexists. split; [reflexivity|]. split; [reflexivity|].
  destruct (currency_invariant toLowerCase_ascii toUpperCase_ascii bodyA _
              (lit "CAD") eq_refl eq_refl) as (H1 & H2 & _).
  split; assumption.
Defined.

(** X10: an amount at the end of its line. *)
Lemma amount_null_iff_end_of_line :
  exists b,
    parseBody toLowerCase_ascii toUpperCase_ascii bodyAmountLast = Return b
    /\ amountLine bodyAmountLast = Some lineAmountLast
    /\ has space (after dollar lineAmountLast) = false
    /\ Body.amount b = None.
Proof.
  eexists. split; [reflexivity|]. split; [reflexivity|].
  split; [reflexivity|].
  apply (proj1 (amount_null_iff toLowerCase_ascii toUpperCase_ascii
                  bodyAmountLast _ eq_refl)).
  right. exists lineAmountLast. split; reflexivity.
Defined.

(** X11: the sender of the README message stands before the rest of its
    line. *)
Lemma from_name_prefix_README :
  exists b rest,
    nth_error (normalize bodyA) 1 = Some lineA
    /\ parseBody toLowerCase_ascii toUpperCase_ascii bodyA = Return b
    /\ lineA = Body.from_name b ++ rest /\ rest <> [].
Proof.
  destruct (proj1 (from_name_prefix toLowerCase_ascii toUpperCase_ascii
                     bodyA lineA _ eq_refl eq_refl))
    as (rest & E & N).
  eexists. exists rest. split; [reflexivity|]. split; [reflexivity|].
  split; [exact E | exact N].
Defined.

(** X12: the README message has no errors. *)
Lemma errors_null_iff_README :
  exists r,
    parse toLowerCase_ascii toUpperCase_ascii NumberToString_nondigit emailA
    = Return r
    /\ Result.errors r = None
    /\ Result.isEmailTransfer r = true
    /\ Result.language r = Some en.
Proof.
  eexists. split; [reflexivity|]. split; [reflexivity|].
  destruct (errors_null_iff toLowerCase_ascii toUpperCase_ascii
              NumberToString_nondigit emailA _ eq_refl)
    as (b & _ & _ & H).
  destruct (H eq_refl) as (T & language & L & _).
  split; [exact T | reflexivity].
Defined.

(** X13: the README message is a transfer. *)
Lemma transfer_iff_no_error_README :
  exists r,
    parse toLowerCase_ascii toUpperCase_ascii NumberToString_nondigit emailA
    = Return r
    /\ errorList r = []
    /\ Result.isEmailTransfer r = true.
Proof.
  assert (N1 : ~ In errSubject []) by (intros []).
  assert (N2 : forall m : jsstring,
             In m [] -> startsWith errAmountPrefix m = false)
    by (intros m []).
  eexists. split; [reflexivity|]. split; [reflexivity|].
  exact (proj2 (transfer_iff_no_error toLowerCase_ascii toUpperCase_ascii
                  NumberToString_nondigit emailA _ eq_refl) (conj N1 N2)).
Defined.

(** X14: the amount message of a message without amount. *)
Lemma amount_error_text_no_amount :
  exists r,
    parse toLowerCase_ascii toUpperCase_ascii NumberToString_nondigit
          emailNoAmount = Return r
    /\ In (errAmountPrefix ++ lit "null") (errorList r)
    /\ Result.amount r = None.
Proof.
  eexists. split; [reflexivity|].
  assert (H : In (errAmountPrefix ++ lit "null")
                 [errSubject; errAmountPrefix ++ lit "null"; errLanguage])
    by (right; left; reflexivity).
  split; [exact H|].
  destruct (amount_error_text toLowerCase_ascii toUpperCase_ascii
              NumberToString_nondigit emailNoAmount _
              (errAmountPrefix ++ lit "null") eq_refl H eq_refl)
    as [[A _]|[A _]]; [exact A | discriminate A].
Defined.

(** X15: the French message, whose body alone claims the deposit. *)
Lemma auto_deposit_error_French :
  exists r,
    parse toLowerCase_ascii toUpperCase_ascii NumberToString_nondigit emailFr
    = Return r
    /\ subjectAutoDeposit toLowerCase_ascii emailFr = false
    /\ bodyAutoDeposit toLowerCase_ascii emailFr = true
    /\ In errAutoDeposit (errorList r)
    /\ Result.isAutoDeposit r = false.
Proof.
  eexists. split; [reflexivity|]. split; [reflexivity|].
  split; [reflexivity|].
  destruct (auto_deposit_error toLowerCase_ascii toUpperCase_ascii
              NumberToString_nondigit emailFr _ eq_refl) as (I & F & _).
  assert (H : In errAutoDeposit [errAutoDeposit]) by (left; reflexivity).
  split; [exact H | exact (F H)].
Defined.

(** X16: the language of the README message. *)
Lemma language_agreement_README :
  exists r,
    parse toLowerCase_ascii toUpperCase_ascii NumberToString_nondigit emailA
    = Return r
    /\ ~ In errLanguage (errorList r)
    /\ Result.language r = subjectLanguage toLowerCase_ascii emailA
    /\ Result.language r = bodyLanguage toLowerCase_ascii emailA.
Proof.
  eexists. split; [reflexivity|].
  assert (N : ~ In errLanguage []) by (intros []).
  split; [exact N|].
  exact (proj1 (language_agreement toLowerCase_ascii toUpperCase_ascii
                  NumberToString_nondigit emailA _ eq_refl) N).
Defined.

(** X18: the message and the reference of the README message. *)
Lemma message_and_reference_README :
  exists b,
    parseBody toLowerCase_ascii toUpperCase_ascii bodyA = Return b
    /\ Body.message b = Some (lit "((UON5-CHCZ-22RH-F0N6))")
    /\ Body.reference b = Some (lit "CAvjMTys").
Proof.
  eexists. split; [reflexivity|].
  destruct (message_and_reference toLowerCase_ascii toUpperCase_ascii
              bodyA _ eq_refl) as [M R].
  rewrite M, R. split; reflexivity.
Defined.

(** X1: the English phrase of the automatic deposit in a text. *)
Lemma tokenExists_occurs_deposited :
  tokenExists (lit "the money has been automatically deposited.")
              automatic_deposit = Some en.
Proof.
  apply (proj2 (proj1 (tokenExists_occurs
                         (lit "the money has been automatically deposited.")
                         automatic_deposit))).
  exists (lit "the money has been "), (lit "."). reflexivity.
Defined.

(** X4: the subject of the README message. *)
Lemma parseSubject_flags_README :
  Subject.is_email_transfer (parseSubject toLowerCase_ascii subjectA) = true
  /\ Subject.is_auto_deposit (parseSubject toLowerCase_ascii subjectA) = true.
Proof.
  destruct (parseSubject_flags toLowerCase_ascii subjectA)
    as (T & A & _).
  split.
  - apply (proj2 T). exists en. eexists. reflexivity.
  - apply (proj2 A). exists en.
    exists (lit "interac e-transfer: a money transfer from sample tenant has been "),
      (lit "."). reflexivity.
Defined.

(** X7: the amount line of the README message is its first line with a
    [$]. *)
Lemma containsLine_first_README :
  containsLine (normalize bodyA) [dollar] = Some lineA
  /\ exists pre post,
      normalize bodyA = pre ++ lineA :: post /\ In dollar lineA
      /\ forall x, In x pre -> ~ In dollar x.
Proof.
  split; [reflexivity|].
  exact (proj1 (proj1 (containsLine_first (normalize bodyA) dollar) lineA)
           eq_refl).
Defined.

(** X8: a message line. *)
Lemma readAfter_single_message :
  readAfter (lit "Message:  thanks ") [colon] = Some (lit "thanks")
  /\ trim (lit "thanks") = lit "thanks".
Proof.
  split; [reflexivity|].
  exact (proj2 (readAfter_single (lit "Message:  thanks ") colon)
           (lit "thanks") eq_refl).
Defined.

(** X17: the README message without a subject is not parsed, though its
    body has four lines; with its subject it is. *)
Lemma parseMessage_outcome_README :
  Message.subject messageNoSubject = None
  /\ length (normalize bodyA) = 4%nat
  /\ parseMessage toLowerCase_ascii toUpperCase_ascii
                  NumberToString_nondigit messageNoSubject
     = Throw TypeError
  /\ exists r,
      parseMessage toLowerCase_ascii toUpperCase_ascii
                   NumberToString_nondigit messageA = Return r.
Proof.
  split; [reflexivity|]. split; [reflexivity|]. split.
  - apply (proj1 (parseMessage_outcome toLowerCase_ascii toUpperCase_ascii
                    NumberToString_nondigit messageNoSubject)).
    right. left. reflexivity.
  - apply (proj2 (parseMessage_outcome toLowerCase_ascii toUpperCase_ascii
                    NumberToString_nondigit messageA)).
    exists bodyA, subjectA. split; [reflexivity|]. split; [reflexivity|].
    change (2 <= 4)%nat. lia.
Defined.

(** The amount before a [$] that ends its line: the primary strategy
    has no space to stop at, and the fallback strategy, which would read
    the amount, is not tried, [isNaN(null)] being false. *)
Lemma amount_before_dollar_at_end_of_line :
  exists b,
    parseBody toLowerCase_ascii toUpperCase_ascii bodyFrLast = Return b
    /\ amountLine bodyFrLast = Some lineFrLast
    /\ has space (after dollar lineFrLast) = false
    /\ fallbackAmount lineFrLast
       = Some (S754_finite false 5910974510923776 (-50))
    /\ Body.amount b = None
    /\ Body.is_valid_amount b = false.
Proof.
  eexists. split; [reflexivity|]. repeat split.
Qed.
